(** * Startup validator back end: the research pipeline, verified

    A shallow embedding of [src/agent/graph.js] (the LangGraph pipeline built
    by [createResearchGraph]), of [src/services/twitter.js] with the analyzer
    it carries, of the research handler of [src/index.js] and of
    [src/auth.js], with the properties the specification states about them.

    Conventions of the embedding.
    - JavaScript values that flow through the run state are [jsval]s: the
      values of JSON, and [undefined].  No [jsval] is a function.  Objects
      are association lists of their own properties, in insertion order.
    - A string is held as the bytes of its UTF-8 encoding; [js_length] and
      [slice0] count UTF-16 code units, as [length] and [slice] do.
    - An [async] function is a computation in the monad [M]: it reads and
      writes the variables captured by the graph closure ([Run]), appends to
      the stream of emitted events, and either returns or throws.  Node.js
      runs one callback at a time, so the synchronous prefix of every call is
      atomic and a run is a sequence of such steps.
    - A thrown value is any [jsval]: a library may reject with an [Error],
      with [null], or with an object whose [message] is not a string.
    - The clock field [ts] of an event is left out, and so are the "ping"
      events a handler sends every 15 s. *)

From Stdlib Require Import ZArith NArith Lia DecimalString.
From stdpp Require Import base option list strings gmap sets.

Set Warnings "-register-all,-clear-no-such-hyp".

(** ** JavaScript values *)

(** [VNum n] is the integer [n] (every number the code computes is a count
    or a rounded score).  [VDouble shown] is any other number a parsed reply
    can hold (a fraction, a magnitude of 1e21 or more, [NaN], an infinity),
    named by the text [String] gives for it, and [VDouble "-0"] is the
    negative zero. *)
Inductive jsval : Type :=
| VUndefined
| VNull
| VBool (b : bool)
| VNum (n : Z)
| VDouble (shown : string)
| VStr (s : string)
| VArr (items : list jsval)
| VObj (fields : list (string * jsval)).

(** [!!v] of JavaScript. *)
Definition truthy (v : jsval) : bool :=
  match v with
  | VUndefined | VNull => false
  | VBool b => b
  | VNum n => negb (n =? 0)%Z
  | VDouble shown => negb (String.eqb shown "NaN" || String.eqb shown "-0")
  | VStr s => negb (String.eqb s "")
  | VArr _ | VObj _ => true
  end.

(** [a || b]. *)
Definition js_or (a b : jsval) : jsval := if truthy a then a else b.

Definition nullish (v : jsval) : bool :=
  match v with VUndefined | VNull => true | _ => false end.

Fixpoint lookup_field (k : string) (fields : list (string * jsval)) : jsval :=
  match fields with
  | [] => VUndefined
  | (k', v) :: rest => if String.eqb k k' then v else lookup_field k rest
  end.

(** [v?.k]: [undefined] on a nullish receiver, the property otherwise (a
    primitive or an array has none of the property names used here). *)
Definition opt_get (v : jsval) (k : string) : jsval :=
  match v with
  | VObj fields => lookup_field k fields
  | _ => VUndefined
  end.

(** ** Thrown values and outcomes *)

(** An [Error] instance: an object whose [message] is a string. *)
Definition mkError (m : string) : jsval := VObj [("message", VStr m)].

(** The error the engine throws on a property read on [null], on a call of
    what is not a function, on a value that has no string form.  Its text
    differs from one engine to the next. *)
Definition TypeError : jsval := mkError "TypeError".

(** How a call ends, and also the envelope [Promise.allSettled] reports. *)
Inductive Outcome (A : Type) : Type :=
| Fulfilled (value : A)
| Rejected (reason : jsval).
Arguments Fulfilled {A} value.
Arguments Rejected {A} reason.

Definition is_rejected {A} (o : Outcome A) : bool :=
  match o with Rejected _ => true | Fulfilled _ => false end.

(** [v.k] where the code does not guard the receiver: a [TypeError] on
    [null] and [undefined]. *)
Definition get (v : jsval) (k : string) : Outcome jsval :=
  if nullish v then Rejected TypeError else Fulfilled (opt_get v k).

(** A thrown value with a string for its [message], as every [Error] has. *)
Definition has_message (err : jsval) : bool :=
  match opt_get err "message" with VStr _ => true | _ => false end.

(** ** Strings *)

(** The UTF-16 code units a byte of the encoding accounts for: one for the
    first byte of a character of the basic plane, two for the first byte of
    a character beyond it (a surrogate pair), none for a continuation
    byte. *)
Definition units_of (c : Ascii.ascii) : nat :=
  let n := Ascii.N_of_ascii c in
  if (n <? 128)%N then 1 else if (n <? 192)%N then 0 else if (n <? 240)%N then 1 else 2.

(** [s.length] *)
Fixpoint js_length (s : string) : nat :=
  match s with
  | EmptyString => 0
  | String c rest => units_of c + js_length rest
  end.

(** The first half of the surrogate pair of the character whose encoding
    starts with [b0] and goes on in [rest], as the three bytes a lone
    surrogate is held in. *)
Definition high_surrogate (b0 : Ascii.ascii) (rest : string) : string :=
  match rest with
  | String b1 (String b2 _) =>
      let hi := (55232 + (Ascii.N_of_ascii b0 mod 8) * 256
                 + (Ascii.N_of_ascii b1 mod 64) * 4
                 + (Ascii.N_of_ascii b2 mod 64) / 16)%N in
      String (Ascii.ascii_of_N 237)
        (String (Ascii.ascii_of_N (128 + (hi / 64) mod 64))
           (String (Ascii.ascii_of_N (128 + hi mod 64)) EmptyString))
  | _ => EmptyString
  end.

(** The second half of that pair, from the bytes that follow the first. *)
Definition low_surrogate (rest : string) : string :=
  match rest with
  | String _ (String b2 (String b3 _)) =>
      let lo := (56320 + (Ascii.N_of_ascii b2 mod 16) * 64
                 + Ascii.N_of_ascii b3 mod 64)%N in
      String (Ascii.ascii_of_N 237)
        (String (Ascii.ascii_of_N (128 + (lo / 64) mod 64))
           (String (Ascii.ascii_of_N (128 + lo mod 64)) EmptyString))
  | _ => EmptyString
  end.

(** The code units of [s], each as a string of its own, after the
    continuation bytes [s] starts with. *)
Fixpoint split_units (s : string) : string * list string :=
  match s with
  | EmptyString => (EmptyString, [])
  | String c rest =>
      let '(continuation, units) := split_units rest in
      match units_of c with
      | 0 => (String c continuation, units)
      | 1 => (EmptyString, String c continuation :: units)
      | _ => (EmptyString,
              high_surrogate c continuation :: low_surrogate continuation :: units)
      end
  end.

(** [s.slice(0, n)]: the first [n] code units.  A continuation byte goes
    with the byte that leads it; a cut between the two halves of a surrogate
    pair keeps the first half. *)
Fixpoint slice0 (n : nat) (s : string) : string :=
  match s with
  | EmptyString => EmptyString
  | String c rest =>
      match units_of c, n with
      | 0, _ => String c (slice0 n rest)
      | 1, S n' => String c (slice0 n' rest)
      | 2, S (S n') => String c (slice0 n' rest)
      | 2, 1 => high_surrogate c rest
      | _, _ => EmptyString
      end
  end.

Definition show_nat (n : nat) : string := NilEmpty.string_of_uint (Nat.to_uint n).

Definition show_Z (n : Z) : string := NilEmpty.string_of_int (Z.to_int n).

Fixpoint repeat_str (s : string) (n : nat) : string :=
  match n with O => "" | S n' => s +:+ repeat_str s n' end.

Definition dq : string := String (Ascii.ascii_of_nat 34) EmptyString.
Definition nl : string := String (Ascii.ascii_of_nat 10) EmptyString.

Fixpoint join_with (sep : string) (l : list string) : string :=
  match l with
  | [] => ""
  | [a] => a
  | a :: rest => a +:+ sep +:+ join_with sep rest
  end.

Fixpoint has_own (k : string) (fields : list (string * jsval)) : bool :=
  match fields with
  | [] => false
  | (k', _) :: rest => String.eqb k k' || has_own k rest
  end.

(** [String(v)], and what a template literal does with [v].  An array is
    joined with commas, its [null] and [undefined] items as empty strings.
    An object prints through [Object.prototype.toString] unless it has a
    property [toString] of its own, which is no function: then the
    conversion throws. *)
Fixpoint js_String (v : jsval) : Outcome string :=
  match v with
  | VUndefined => Fulfilled "undefined"
  | VNull => Fulfilled "null"
  | VBool b => Fulfilled (if b then "true" else "false")
  | VNum n => Fulfilled (show_Z n)
  | VDouble shown => Fulfilled (if String.eqb shown "-0" then "0" else shown)
  | VStr s => Fulfilled s
  | VArr items =>
      match
        (fix parts (l : list jsval) : Outcome (list string) :=
           match l with
           | [] => Fulfilled []
           | x :: rest =>
               match (if nullish x then Fulfilled "" else js_String x) with
               | Fulfilled shown =>
                   match parts rest with
                   | Fulfilled more => Fulfilled (shown :: more)
                   | Rejected e => Rejected e
                   end
               | Rejected e => Rejected e
               end
           end) items
      with
      | Fulfilled shown => Fulfilled (join_with "," shown)
      | Rejected e => Rejected e
      end
  | VObj fields =>
      if has_own "toString" fields then Rejected TypeError
      else Fulfilled "[object Object]"
  end.

(** [x.slice(0, n)] as a template prints it: a string is cut, an array is
    cut and joined, and anything else has no [slice] to call. *)
Definition slice_text (n : nat) (x : jsval) : Outcome string :=
  match x with
  | VStr s => Fulfilled (slice0 n s)
  | VArr items => js_String (VArr (take n items))
  | _ => Rejected TypeError
  end.

(** ** Events *)

Record Event : Type := { type : string; msg : string }.

(** ** Web research data *)

Record Source : Type := { url : option string; title : string; content : string }.

Record TavilyResponse : Type := { results : option (list Source); answer : option string }.

Record TavilyData : Type := {
  searchResults : list Source;
  sources : list Source;
  summary : string;
  sourceCount : nat;
}.

(** ** The variables captured by one graph, and the monad of its stages *)

Record Run : Type := {
  emitted : list Event;
  tavilyPrefetchPromise : option (Outcome TavilyData);
  launched : nat;
}.

(** [launched] counts the executions of [runSingleTavilyResearch].  A promise
    is represented by the outcome it settles with: the web research started
    by the prefetch is run to completion where it is launched, its events
    are appended there, and its outcome is what is stored.  How its events
    interleave with those of the stages depends on timing in the source; no
    property below depends on it. *)
Definition M (A : Type) : Type := Run → Outcome A * Run.

#[global] Instance M_ret : MRet M := λ A a r, (Fulfilled a, r).
#[global] Instance M_bind : MBind M := λ A B f m r,
  match m r with
  | (Fulfilled a, r') => f a r'
  | (Rejected e, r') => (Rejected e, r')
  end.

Definition lift {A} (o : Outcome A) : M A := λ r, (o, r).

Definition try_catch {A} (body : M A) (handler : jsval → M A) : M A := λ r,
  match body r with
  | (Fulfilled a, r') => (Fulfilled a, r')
  | (Rejected e, r') => handler e r'
  end.

Definition push_event (ev : Event) (r : Run) : Run :=
  {| emitted := emitted r ++ [ev];
     tavilyPrefetchPromise := tavilyPrefetchPromise r;
     launched := launched r |}.

Definition emit (ev : Event) : M unit := λ r, (Fulfilled (), push_event ev r).

Definition emit_all (evs : list Event) : M unit := λ r,
  (Fulfilled (), foldl (λ r' ev, push_event ev r') r evs).

(** The prefetch is a promise nobody awaits until the web stage does, twelve
    rate-limited Twitter calls (5.6 s apart) after it was started, while the
    research settles within its 25 s timers.  When it rejects, Node.js
    therefore finds the rejection unhandled and ends the process: what the
    model computes for the rest of such a run is not observed. *)
Definition exits (r : Run) : bool :=
  match tavilyPrefetchPromise r with
  | Some (Rejected _) => true
  | _ => false
  end.

(** ** The fault-isolating wrapper *)

(** [err.message?.slice(0, 80) || "unknown error"], as the template of the
    warning prints it.  The read of [err.message] is not guarded: it throws
    on [null] and [undefined].  A [message] that is neither nullish, nor a
    string, nor an array has no [slice] to call. *)
Definition error_description (err : jsval) : Outcome string :=
  match get err "message" with
  | Rejected e => Rejected e
  | Fulfilled (VUndefined | VNull) => Fulfilled "unknown error"
  | Fulfilled (VStr m) =>
      Fulfilled (if String.eqb (slice0 80 m) "" then "unknown error" else slice0 80 m)
  | Fulfilled m => slice_text 80 m
  end.

Definition warn_event (name shown : string) : Event :=
  {| type := "warn";
     msg := "  ⚠ " +:+ name +:+ " failed: " +:+ shown
              +:+ " — continuing with partial data" |}.

Definition wrapNode {S P : Type} (name : string) (fn : S → M P)
    (fallbackFactory : S → P) : S → M P := λ state,
  try_catch (fn state)
    (λ err,
       shown ← lift (error_description err);
       emit (warn_event name shown);;
       mret (fallbackFactory state)).

(** ** The rate limiter of [services/twitter.js] *)

Module RateLimiter.

(** One call of [throttle] at clock value [now], from the synchronous
    prefix (read, pre-reserve) to the resumption of the caller: the new
    value of [_nextSlot] and the instant at which the caller is released,
    [now] when there is nothing to wait for and [now + wait] after
    [delay(wait)] otherwise. *)
Definition throttle (now _nextSlot : Z) : Z * Z :=
  let wait := Z.max 0 (_nextSlot - now) in
  let _nextSlot' := (Z.max now _nextSlot + 5600)%Z in
  let release := if (wait =? 0)%Z then now else (now + wait)%Z in
  (release, _nextSlot').

(** Calls in the order in which their synchronous prefixes run, each with
    the clock value it reads; the result lists their release instants. *)
Fixpoint releases (nows : list Z) (_nextSlot : Z) : list Z :=
  match nows with
  | [] => []
  | now :: rest =>
      let '(release, _nextSlot') := throttle now _nextSlot in
      release :: releases rest _nextSlot'
  end.

End RateLimiter.

(** ** Fan-out *)

(** A pending call: when its promise settles ([None]: never) and how. *)
Record Task (A : Type) : Type := { latency : option Z; result : Outcome A }.
Arguments latency {A} _.
Arguments result {A} _.

(** [Promise.race([task, timer 25000 ms])]: the instant at which the race
    settles and its outcome.  The timer is created after the call, so the
    task wins when it settles no later than the timer fires. *)
Definition race_timeout {A} (t : Task A) : Z * Outcome A :=
  match latency t with
  | Some d =>
      if (d <=? 25000)%Z then (d, result t) else (25000%Z, Rejected (mkError "timeout"))
  | None => (25000%Z, Rejected (mkError "timeout"))
  end.

(** [Promise.allSettled]: one envelope per promise, by position; it settles
    when the last promise has. *)
Definition allSettled {A} (promises : list (Z * Outcome A)) : Z * list (Outcome A) :=
  (foldr Z.max 0%Z (promises.*1), promises.*2).

(** The fan-out of [runSingleTavilyResearch]: every task races a timer. *)
Definition gatherAll {A} (tasks : list (Task A)) : Z * list (Outcome A) :=
  allSettled (race_timeout <$> tasks).

(** The timer fires before the task has settled. *)
Definition times_out {A} (t : Task A) : bool :=
  match latency t with
  | Some d => negb (d <=? 25000)%Z
  | None => true
  end.

(** The task fails: it times out, or it rejects. *)
Definition task_fails {A} (t : Task A) : bool :=
  times_out t || is_rejected (result t).

(** The fan-out of the Twitter stages ([fetchTrends], [demandCheck],
    [adopterSearch], [funderSearch]): [Promise.allSettled] over the calls
    themselves, with no timer.  It settles when the slowest call has, and
    never when a call never settles. *)
Fixpoint settle_each {A} (tasks : list (Task A)) : option (list (Z * Outcome A)) :=
  match tasks with
  | [] => Some []
  | t :: rest =>
      match latency t, settle_each rest with
      | Some d, Some settled => Some ((d, result t) :: settled)
      | _, _ => None
      end
  end.

Definition fanOut {A} (tasks : list (Task A)) : option (Z * list (Outcome A)) :=
  allSettled <$> settle_each tasks.

(** ** Deduplication by URL *)

(** [!s.url] is false exactly for a non-empty string. *)
Definition url_key (s : Source) : option string :=
  match url s with
  | Some u => if String.eqb u "" then None else Some u
  | None => None
  end.

(** The [filter] callback with its [seen] set threaded through. *)
Fixpoint dedupe (seen : gset string) (allSources : list Source) : list Source :=
  match allSources with
  | [] => []
  | s :: rest =>
      match url_key s with
      | None => dedupe seen rest
      | Some u =>
          if bool_decide (u ∈ seen) then dedupe seen rest
          else s :: dedupe ({[u]} ∪ seen) rest
      end
  end.

Definition uniqueSources (allSources : list Source) : list Source :=
  dedupe ∅ allSources.

Definition url_set (l : list Source) : gset string :=
  list_to_set (omap url_key l).

(** ** [runSingleTavilyResearch] *)

Definition searchQueries (idea : string) : list string :=
  [ idea +:+ " market size TAM startup landscape 2025";
    idea +:+ " competitors alternatives funding investors";
    idea +:+ " customer pain points use cases target market";
    idea +:+ " growth trends industry report" ].

Record Gathered : Type := {
  allSources : list Source;
  answers : list string;
}.

(** What the searches that succeeded returned, in order. *)
Definition found_by (r : Outcome (option TavilyResponse)) : list Source :=
  match r with
  | Fulfilled (Some value) => default [] (results value)
  | _ => []
  end.

Definition found (settled : list (Outcome (option TavilyResponse))) : list Source :=
  concat (found_by <$> settled).

(** [r.reason?.message?.slice(0, 50)] as the template prints it. *)
Definition reason_text (reason : jsval) : Outcome string :=
  match opt_get reason "message" with
  | VUndefined | VNull => Fulfilled "undefined"
  | m => slice_text 50 m
  end.

(** One iteration of the loop over [settled]. *)
Definition visit (queries : list string) (acc : Gathered) (i : nat)
    (r : Outcome (option TavilyResponse)) : M Gathered :=
  match r with
  | Fulfilled (Some value) =>
      let found := default [] (results value) in
      emit {| type := "info";
              msg := "  ✓ Search " +:+ show_nat (i + 1) +:+ ": "
                       +:+ show_nat (length found) +:+ " sources" |};;
      mret {| allSources := allSources acc ++ found;
              answers :=
                match answer value with
                | Some a =>
                    if String.eqb a "" then answers acc
                    else answers acc ++ ["**" +:+ default "undefined" (queries !! i)
                                           +:+ "**" +:+ nl +:+ a]
                | None => answers acc
                end |}
  | Fulfilled None => mret acc
  | Rejected reason =>
      shown ← lift (reason_text reason);
      emit {| type := "warn";
              msg := "  ⚠ Search " +:+ show_nat (i + 1) +:+ " failed: " +:+ shown |};;
      mret acc
  end.

Fixpoint gather (queries : list string) (acc : Gathered) (i : nat)
    (settled : list (Outcome (option TavilyResponse))) : M Gathered :=
  match settled with
  | [] => mret acc
  | r :: rest => acc' ← visit queries acc i r; gather queries acc' (S i) rest
  end.

(** The object the research resolves to, from what the loop gathered. *)
Definition web_intel (g : Gathered) : TavilyData :=
  let unique := uniqueSources (allSources g) in
  {| searchResults := [];
     sources := take 15 unique;
     summary := join_with (nl +:+ nl) (answers g);
     sourceCount := length unique |}.

Definition tavily_complete (g : Gathered) : Event :=
  {| type := "info";
     msg := "  ✓ Tavily complete: " +:+ show_nat (length (uniqueSources (allSources g)))
              +:+ " unique sources from " +:+ show_nat (length (answers g))
              +:+ " answered queries" |}.
(** ** Run state *)

Record State : Type := {
  idea : string;
  description : string;
  queries : jsval;
  trendsData : jsval;
  demandData : jsval;
  adopterData : jsval;
  funderData : jsval;
  communityData : jsval;
  tavilyData : option TavilyData;
  verdict : jsval;
}.

(** One key of the object a node returns. *)
Inductive Update : Type :=
| SetQueries (v : jsval)
| SetTrendsData (v : jsval)
| SetDemandData (v : jsval)
| SetAdopterData (v : jsval)
| SetFunderData (v : jsval)
| SetCommunityData (v : jsval)
| SetTavilyData (v : TavilyData)
| SetVerdict (v : jsval).

Definition Patch : Type := list Update.

(** The reducer of every channel is [(_, y) => y]. *)
Definition reduce (s : State) (u : Update) : State :=
  match u with
  | SetQueries v =>
      {| idea := idea s; description := description s; queries := v;
         trendsData := trendsData s; demandData := demandData s;
         adopterData := adopterData s; funderData := funderData s;
         communityData := communityData s; tavilyData := tavilyData s;
         verdict := verdict s |}
  | SetTrendsData v =>
      {| idea := idea s; description := description s; queries := queries s;
         trendsData := v; demandData := demandData s;
         adopterData := adopterData s; funderData := funderData s;
         communityData := communityData s; tavilyData := tavilyData s;
         verdict := verdict s |}
  | SetDemandData v =>
      {| idea := idea s; description := description s; queries := queries s;
         trendsData := trendsData s; demandData := v;
         adopterData := adopterData s; funderData := funderData s;
         communityData := communityData s; tavilyData := tavilyData s;
         verdict := verdict s |}
  | SetAdopterData v =>
      {| idea := idea s; description := description s; queries := queries s;
         trendsData := trendsData s; demandData := demandData s;
         adopterData := v; funderData := funderData s;
         communityData := communityData s; tavilyData := tavilyData s;
         verdict := verdict s |}
  | SetFunderData v =>
      {| idea := idea s; description := description s; queries := queries s;
         trendsData := trendsData s; demandData := demandData s;
         adopterData := adopterData s; funderData := v;
         communityData := communityData s; tavilyData := tavilyData s;
         verdict := verdict s |}
  | SetCommunityData v =>
      {| idea := idea s; description := description s; queries := queries s;
         trendsData := trendsData s; demandData := demandData s;
         adopterData := adopterData s; funderData := funderData s;
         communityData := v; tavilyData := tavilyData s;
         verdict := verdict s |}
  | SetTavilyData v =>
      {| idea := idea s; description := description s; queries := queries s;
         trendsData := trendsData s; demandData := demandData s;
         adopterData := adopterData s; funderData := funderData s;
         communityData := communityData s; tavilyData := Some v;
         verdict := verdict s |}
  | SetVerdict v =>
      {| idea := idea s; description := description s; queries := queries s;
         trendsData := trendsData s; demandData := demandData s;
         adopterData := adopterData s; funderData := funderData s;
         communityData := communityData s; tavilyData := tavilyData s;
         verdict := v |}
  end.

Definition apply_patch (s : State) (p : Patch) : State := foldl reduce s p.

(** The channel defaults, overwritten by the input of [graph.invoke]. *)
Definition initial_state (idea description : string) : State :=
  {| idea := idea; description := description; queries := VNull;
     trendsData := VNull; demandData := VNull; adopterData := VNull;
     funderData := VNull; communityData := VNull; tavilyData := None;
     verdict := VNull |}.

(** ** Deterministic fallbacks *)

Definition fallbackQueries (idea : string) : jsval :=
  VObj [
    ("trend_scan", VStr (idea +:+ " -is:retweet lang:en"));
    ("demand_recent", VStr (idea +:+ " lang:en"));
    ("demand_top", VStr (idea +:+ " lang:en"));
    ("adopter_pain", VStr (idea +:+ " (wish OR struggling OR frustrated OR " +:+ dq
        +:+ "looking for" +:+ dq +:+ " OR " +:+ dq +:+ "need a" +:+ dq
        +:+ ") lang:en -is:retweet"));
    ("investor_search", VStr (idea +:+ " investor"));
    ("competitor_search", VStr (idea +:+ " alternative OR competitor lang:en"));
    ("community_query", VStr idea) ].

Definition fallbackVerdict (state : State) : jsval :=
  VObj [
    ("score", js_or (opt_get (demandData state) "demandScore") (VNum 50));
    ("headline", VStr "Research complete — manual review recommended");
    ("why_it_works", VStr "Twitter data shows market awareness.");
    ("why_it_fails", VStr "Insufficient data for full analysis.");
    ("strengths", VArr [VStr "Market conversations exist"]);
    ("weaknesses", VArr [VStr "Limited data"]);
    ("issues", VArr [VStr "Need more data"]);
    ("best_points", VArr [VStr "Conversations happening"]);
    ("idea_changes", VArr [VStr "Gather more customer feedback"]);
    ("new_additions", VArr [VStr "Build MVP first"]);
    ("target_customer", VStr "Early adopters");
    ("go_to_market", VStr "Direct outreach");
    ("competition_risk", VStr "medium");
    ("timing", VStr "perfect");
    ("market_size", VStr "Unknown");
    ("key_insight", VStr "More research needed");
    ("red_flags", VArr [VStr "Limited data"]);
    ("recommendation", VStr "explore");
    ("investor_readiness", VStr "not_ready");
    ("next_actions", VArr [VStr "Gather more data"; VStr "Interview potential customers"]);
    ("top_funders", VArr []);
    ("web_insights", VStr "Web research unavailable") ].

Definition fallbackTrends : jsval :=
  VObj [
    ("worldwideCount", VNum 0); ("usaCount", VNum 0); ("matched", VArr []);
    ("allTrends", VArr []); ("hashtags", VArr []); ("keywords", VArr []);
    ("contextTweets", VArr []); ("topTweets", VArr []);
    ("insights", VStr "Trend data unavailable due to API/runtime failure.") ].

Definition fallbackDemand : jsval :=
  VObj [
    ("recentCount", VNum 0); ("monthCount", VNum 0); ("topTweets", VArr []);
    ("competitorTweets", VArr []);
    ("sentiment", VObj [("positive", VNum 0); ("negative", VNum 0); ("neutral", VNum 100)]);
    ("avgLikes", VNum 0); ("avgRt", VNum 0); ("demandScore", VNum 0);
    ("insights", VStr "Demand data unavailable due to API/runtime failure.") ].

Definition fallbackAdopters : jsval :=
  VObj [
    ("count", VNum 0); ("users", VArr []); ("allPainTweets", VNum 0);
    ("insights", VStr "Adopter data unavailable due to API/runtime failure.") ].

Definition fallbackFunders : jsval :=
  VObj [
    ("count", VNum 0); ("profileInvestors", VArr []); ("tweetInvestors", VArr []);
    ("insights", VStr "Funder data unavailable due to API/runtime failure.") ].

Definition fallbackCommunity : jsval :=
  VObj [("tweets", VArr []); ("count", VNum 0)].

Definition fallbackTavily : TavilyData :=
  {| searchResults := []; sources := []; summary := ""; sourceCount := 0 |}.

(** ** Extraction of a JSON object from a reply *)

Definition open_brace : Ascii.ascii := Ascii.ascii_of_nat 123.
Definition close_brace : Ascii.ascii := Ascii.ascii_of_nat 125.

(** The suffix that starts at the first opening brace. *)
Fixpoint from_first_open (s : string) : option string :=
  match s with
  | EmptyString => None
  | String c rest =>
      if Ascii.eqb c open_brace then Some s else from_first_open rest
  end.

(** The longest prefix that ends in a closing brace. *)
Fixpoint upto_last_close (s : string) : option string :=
  match s with
  | EmptyString => None
  | String c rest =>
      match upto_last_close rest with
      | Some p => Some (String c p)
      | None => if Ascii.eqb c close_brace then Some (String c EmptyString) else None
      end
  end.

(** [text.match(/\{[\s\S]*\}/)]: leftmost start, greedy body. *)
Definition match_braces (text : string) : option string :=
  from_first_open text ≫= upto_last_close.

(** The specification's wording, for comparison: the first balanced object,
    from the first opening brace to the closing brace that matches it. *)
Fixpoint balanced_prefix (depth : nat) (s : string) : option string :=
  match s with
  | EmptyString => None
  | String c rest =>
      if Ascii.eqb c open_brace then String c <$> balanced_prefix (S depth) rest
      else if Ascii.eqb c close_brace then
        match depth with
        | O => None
        | S O => Some (String c EmptyString)
        | S d => String c <$> balanced_prefix d rest
        end
      else String c <$> balanced_prefix depth rest
  end.

Definition first_balanced_object (text : string) : option string :=
  from_first_open text ≫= balanced_prefix 0.

(** ** Conversions used in event messages *)

(** [Object.entries(v)] *)
Definition Object_entries (v : jsval) : Outcome (list (string * jsval)) :=
  match v with
  | VUndefined | VNull => Rejected TypeError
  | VObj fields => Fulfilled fields
  | VArr items => Fulfilled (imap (λ i x, (show_nat i, x)) items)
  | VStr s => Fulfilled (imap (λ i unit, (show_nat i, VStr unit)) (split_units s).2)
  | VBool _ | VNum _ | VDouble _ => Fulfilled []
  end.

Definition upper_char (c : Ascii.ascii) : Ascii.ascii :=
  let n := Ascii.nat_of_ascii c in
  if (97 <=? n) && (n <=? 122) then Ascii.ascii_of_nat (n - 32) else c.

(** [s.toUpperCase()] on text of ASCII characters: the letters a to z are
    raised, every other code unit is kept. *)
Fixpoint toUpperCase (s : string) : string :=
  match s with
  | EmptyString => EmptyString
  | String c rest => String (upper_char c) (toUpperCase rest)
  end.

(** [v?.toUpperCase()] as it is printed in a template. *)
Definition shout (v : jsval) : Outcome string :=
  match v with
  | VUndefined | VNull => Fulfilled "undefined"
  | VStr s => Fulfilled (toUpperCase s)
  | _ => Rejected TypeError
  end.

Definition divider : Event := {| type := "divider"; msg := repeat_str "─" 62 |}.
Definition double_divider : Event := {| type := "divider"; msg := repeat_str "═" 62 |}.

(** ** The outside world of one run *)

Inductive TwitterCall : Type :=
| TrendsWorldwide | TrendsUsa | TrendContext | TrendTop
| DemandRecent | DemandMonth | DemandTop | DemandCompetitors
| PainTweets | RecentPain
| InvestorUsers | VcUsers | FunderTweets.

Inductive LlmCall : Type :=
| PlanLlm | TrendsLlm | DemandLlm | AdopterLlm | FunderLlm | VerdictLlm.

(** How every external call of the run ends.  Calls are named by their call
    site; the web searches by the launch of [runSingleTavilyResearch] they
    belong to and by their position in [searchQueries].  A Twitter call
    always settles: the HTTP client of [services/twitter.js] gives up after
    20 s. *)
Record Env : Type := {
  my_info : Outcome jsval;
  llm_invoke : LlmCall → Outcome jsval;
  twitter : TwitterCall → Outcome jsval;
  searchCommunityTweets : Outcome (list jsval);
  tvly_search : nat → nat → Task (option TavilyResponse);
  gemini_text : Outcome string;
}.

(** How a computation of the repository's own code ends: it returns, or the
    engine throws an [Error] (a [TypeError] on a malformed payload, say) with
    some message. *)
Inductive Computed (A : Type) : Type :=
| Returns (value : A)
| Throws (message : string).
Arguments Returns {A} value.
Arguments Throws {A} message.

(** The computations of the stages on tweets and users ([services/analyzer.js],
    averages, rounding, prompt templates), with the events they emit; no
    property below reads their values. *)
Record Analytics : Type := {
  trends_signals : State → list (Outcome jsval) → list Event * Computed unit;
  trends_report : State → list (Outcome jsval) → jsval → list Event * Computed jsval;
  demand_signals : State → list (Outcome jsval) → list Event * Computed unit;
  demand_report : State → list (Outcome jsval) → jsval → list Event * Computed jsval;
  adopter_signals : State → list (Outcome jsval) → list Event * Computed unit;
  adopter_report : State → list (Outcome jsval) → jsval → list Event * Computed jsval;
  funder_signals : State → list (Outcome jsval) → list Event * Computed unit;
  funder_report : State → list (Outcome jsval) → jsval → list Event * Computed jsval;
  synthesis_prompt : State → Computed unit;
}.

Definition outcome_of {A} (c : Computed A) : Outcome A :=
  match c with
  | Returns a => Fulfilled a
  | Throws m => Rejected (mkError m)
  end.

Definition computed {A} (x : list Event * Computed A) : M A :=
  emit_all x.1;; lift (outcome_of x.2).

(** [l.forEach(f)] *)
Fixpoint for_each {A} (f : A → M unit) (l : list A) : M unit :=
  match l with
  | [] => mret ()
  | x :: rest => f x;; for_each f rest
  end.

Module Stage.
Section Stages.

Variable JSON_parse : string → option jsval.
Variable an : Analytics.
Variable env : Env.

(** [getCredits] of [services/twitter.js]: the credits, or [null] on any
    failure. *)
Definition getCredits : jsval :=
  match my_info env with
  | Fulfilled credits => if nullish credits then VNull else credits
  | Rejected _ => VNull
  end.

(** [const m = reply.match(/\{[\s\S]*\}/); JSON.parse(m ? m[0] : reply)] *)
Definition parse_reply (reply : jsval) : Outcome jsval :=
  match reply with
  | VStr text =>
      match JSON_parse (default text (match_braces text)) with
      | Some v => Fulfilled v
      | None => Rejected (mkError "SyntaxError")
      end
  | _ => Rejected TypeError
  end.

(** The envelopes of a fan-out over Twitter calls: [Promise.allSettled]
    reports the outcome of each call, by position. *)
Definition settle_calls (calls : list TwitterCall) : list (Outcome jsval) :=
  twitter env <$> calls.

Definition runSingleTavilyResearch (idea : string) : M TavilyData := λ r,
  let n := launched r in
  let r1 :=
    {| emitted := emitted r ++
         [{| type := "info";
             msg := "  ⚡ Running " +:+ show_nat (length (searchQueries idea))
                      +:+ " parallel Tavily web searches..." |}];
       tavilyPrefetchPromise := tavilyPrefetchPromise r;
       launched := S n |} in
  let settled := (gatherAll (imap (λ i _, tvly_search env n i) (searchQueries idea))).2 in
  (g ← gather (searchQueries idea) {| allSources := []; answers := [] |} 0 settled;
   emit (tavily_complete g);;
   mret (web_intel g)) r1.

(** The guarded start at the end of [planQueries]: the promise is stored
    and not awaited, so the start itself never throws. *)
Definition startPrefetch (idea : string) : M unit := λ r,
  match tavilyPrefetchPromise r with
  | Some _ => (Fulfilled (), r)
  | None =>
      let r1 := push_event {| type := "info"; msg := "  ⚡ Starting Tavily prefetch in parallel..." |} r in
      let '(settled, r2) := runSingleTavilyResearch idea r1 in
      (Fulfilled (),
       {| emitted := emitted r2;
          tavilyPrefetchPromise := Some settled;
          launched := launched r2 |})
  end.

(** The join at the head of [tavilyResearch]: awaiting a promise yields
    the outcome it settled with. *)
Definition joinPrefetch (idea : string) : M TavilyData := λ r,
  match tavilyPrefetchPromise r with
  | Some settled => (settled, r)
  | None => runSingleTavilyResearch idea r
  end.

(** The callback of [Object.entries(queries).forEach]. *)
Definition query_line (entry : string * jsval) : M unit :=
  shown ← lift (js_String entry.2);
  emit {| type := "query_line";
          msg := "    [" +:+ entry.1 +:+ "] " +:+ dq +:+ slice0 72 shown
                   +:+ (if 72 <? js_length shown then "…" else "") +:+ dq |}.

(** [if (credits !== null) emit(...)] *)
Definition report_credits (credits : jsval) : M unit :=
  match credits with
  | VNull => mret ()
  | _ => shown ← lift (js_String credits);
         emit {| type := "info";
                 msg := "  💳 Twitter API credits remaining: " +:+ shown |}
  end.

Definition planQueries (state : State) : M Patch :=
  emit {| type := "step"; msg := "▶  Planning research strategy..." |};;
  emit {| type := "llm_call"; msg := "  🤖 [GPT-4o-mini] Generating smart search queries..." |};;
  report_credits getCredits;;
  reply ← lift (llm_invoke env PlanLlm);
  queries ← try_catch (lift (parse_reply reply))
                      (λ _, mret (fallbackQueries (idea state)));
  emit {| type := "queries"; msg := "  ✓ 7 search queries generated:" |};;
  entries ← lift (Object_entries queries);
  for_each query_line entries;;
  startPrefetch (idea state);;
  mret [SetQueries queries].

Definition fetchTrends (state : State) : M Patch :=
  emit divider;;
  emit {| type := "step"; msg := "▶  STEP 1 / 6 — Real Twitter Trends" |};;
  let settled := settle_calls [TrendsWorldwide; TrendsUsa; TrendContext; TrendTop] in
  computed (trends_signals an state settled);;
  analysis ← lift (llm_invoke env TrendsLlm);
  trendsData ← computed (trends_report an state settled analysis);
  mret [SetTrendsData trendsData].

Definition demandCheck (state : State) : M Patch :=
  emit divider;;
  emit {| type := "step"; msg := "▶  STEP 2 / 6 — Demand Check" |};;
  let settled := settle_calls [DemandRecent; DemandMonth; DemandTop; DemandCompetitors] in
  computed (demand_signals an state settled);;
  analysis ← lift (llm_invoke env DemandLlm);
  demandData ← computed (demand_report an state settled analysis);
  mret [SetDemandData demandData].

Definition adopterSearch (state : State) : M Patch :=
  emit divider;;
  emit {| type := "step"; msg := "▶  STEP 3 / 6 — Find Early Adopters" |};;
  let settled := settle_calls [PainTweets; RecentPain] in
  computed (adopter_signals an state settled);;
  analysis ← lift (llm_invoke env AdopterLlm);
  adopterData ← computed (adopter_report an state settled analysis);
  mret [SetAdopterData adopterData].

Definition funderSearch (state : State) : M Patch :=
  emit divider;;
  emit {| type := "step"; msg := "▶  STEP 4 / 6 — Find Funders & Investors" |};;
  let settled := settle_calls [InvestorUsers; VcUsers; FunderTweets] in
  computed (funder_signals an state settled);;
  analysis ← lift (llm_invoke env FunderLlm);
  funderData ← computed (funder_report an state settled analysis);
  mret [SetFunderData funderData].
Definition communityResearch (state : State) : M Patch :=
  emit divider;;
  emit {| type := "step"; msg := "▶  STEP 5 / 6 — Twitter Community Research" |};;
  emit {| type := "tool_call";
          msg := "  ⚡ [TWITTER API] GET /twitter/community/get_tweets_from_all_community" |};;
  let commTweets :=
    match searchCommunityTweets env with
    | Fulfilled tweets => tweets
    | Rejected _ => []
    end in
  emit {| type := "tool_result";
          msg := "  ✓ Community tweets: " +:+ show_nat (length commTweets) |};;
  (if 0 <? length commTweets
   then emit {| type := "info";
                msg := "  💬 Found " +:+ show_nat (length commTweets) +:+ " community discussions" |}
   else emit {| type := "info";
                msg := "  ℹ  No community posts found — topic may be emerging" |});;
  let communityData :=
    VObj [("tweets", VArr (take 8 commTweets));
          ("count", VNum (Z.of_nat (length commTweets)))] in
  emit {| type := "step_done"; msg := "  ✅ Community scan complete" |};;
  mret [SetCommunityData communityData].

Definition tavilyResearch (state : State) : M Patch :=
  emit divider;;
  emit {| type := "step"; msg := "▶  STEP 6 / 6 — Tavily Web Intelligence" |};;
  emit {| type := "info"; msg := "  ⏳ Waiting for Tavily response before synthesis..." |};;
  tavilyData ← joinPrefetch (idea state);
  emit {| type := "tool_result";
          msg := "  ✓ Tavily ready — " +:+ show_nat (sourceCount tavilyData) +:+ " sources" |};;
  emit {| type := "step_done";
          msg := "  ✅ Web intel: " +:+ show_nat (sourceCount tavilyData) +:+ " sources" |};;
  mret [SetTavilyData tavilyData].

Definition geminiSynthesis (state : State) : M Patch :=
  emit double_divider;;
  emit {| type := "step"; msg := "▶  DEEP SYNTHESIS — Gemini 2.0 Flash + All Data Sources" |};;
  emit {| type := "llm_call"; msg := "  🟣 [GEMINI] Deep-analysing Twitter + Web intelligence..." |};;
  lift (outcome_of (synthesis_prompt an state));;
  verdict ← try_catch
    (text ← lift (gemini_text env);
     emit {| type := "info";
             msg := "  🟣 [GEMINI] Response: " +:+ show_nat (js_length text) +:+ " chars" |};;
     lift (parse_reply (VStr text)))
    (λ geminiErr,
       m ← lift (get geminiErr "message");
       shown ← lift (slice_text 60 m);
       emit {| type := "warn";
               msg := "  ⚠ Gemini error: " +:+ shown +:+ " — GPT fallback" |};;
       try_catch
         (reply ← lift (llm_invoke env VerdictLlm);
          lift (parse_reply reply))
         (λ _, mret (fallbackVerdict state)));
  emit double_divider;;
  score ← lift (get verdict "score");
  shown ← lift (js_String score);
  recommendation ← lift (shout (opt_get verdict "recommendation"));
  emit {| type := "verdict";
          msg := "  🏁 COMPLETE — Score: " +:+ shown +:+ "/100 — " +:+ recommendation |};;
  emit double_divider;;
  mret [SetVerdict verdict].

End Stages.
End Stage.

(** ** The graph *)

Definition Node : Type := State → M Patch.

(** A compiled linear graph: the nodes run in edge order, each on the state
    its predecessors left, and its patch is reduced into the state.  A node
    that throws ends the run: [graph.invoke] rejects. *)
Fixpoint invoke_from (nodes : list Node) (state : State) : M State :=
  match nodes with
  | [] => mret state
  | node :: rest => patch ← node state; invoke_from rest (apply_patch state patch)
  end.

Definition invoke (nodes : list Node) (idea description : string) : M State :=
  invoke_from nodes (initial_state idea description).

(** *** White space, as [String.prototype.trim] and [\s] see it *)









Section Graph.

Variables planQueries fetchTrends demandCheck adopterSearch funderSearch
          communityResearch tavilyResearch geminiSynthesis : Node.

Definition createResearchGraph : list Node :=
  [ wrapNode "Plan queries" planQueries (λ state, [SetQueries (fallbackQueries (idea state))]);
    wrapNode "Trends" fetchTrends (λ _, [SetTrendsData fallbackTrends]);
    wrapNode "Demand" demandCheck (λ _, [SetDemandData fallbackDemand]);
    wrapNode "Adopters" adopterSearch (λ _, [SetAdopterData fallbackAdopters]);
    wrapNode "Funders" funderSearch (λ _, [SetFunderData fallbackFunders]);
    wrapNode "Community" communityResearch (λ _, [SetCommunityData fallbackCommunity]);
    wrapNode "Web intel" tavilyResearch (λ _, [SetTavilyData fallbackTavily]);
    wrapNode "Synthesis" geminiSynthesis (λ state, [SetVerdict (fallbackVerdict state)]) ].

(** *** The research endpoints of [index.js] *)








End Graph.

(** The graph a research handler builds, with the stages of [graph.js]. *)
Definition graph (JSON_parse : string → option jsval) (an : Analytics) (env : Env) : list Node :=
  createResearchGraph
    (Stage.planQueries JSON_parse env) (Stage.fetchTrends an env)
    (Stage.demandCheck an env) (Stage.adopterSearch an env)
    (Stage.funderSearch an env) (Stage.communityResearch env)
    (Stage.tavilyResearch env) (Stage.geminiSynthesis JSON_parse an env).

(** The call raises an [Error]. *)
Definition raises {A} (o : Outcome A) : bool :=
  match o with
  | Rejected err => has_message err
  | Fulfilled _ => false
  end.

Definition every_call_raises (env : Env) : Prop :=
  raises (my_info env) = true ∧
  (∀ call, raises (llm_invoke env call) = true) ∧
  (∀ call, raises (twitter env call) = true) ∧
  raises (searchCommunityTweets env) = true ∧
  (∀ n i, raises (result (tvly_search env n i)) = true) ∧
  raises (gemini_text env) = true.
(** The query plan as the specification words it: the first balanced object
    of the reply, parsed, and the fallback plan when there is none or it
    does not parse. *)
Definition plan_from_first_balanced_object (JSON_parse : string → option jsval)
    (idea text : string) : jsval :=
  match first_balanced_object text ≫= JSON_parse with
  | Some plan => plan
  | None => fallbackQueries idea
  end.

(** The first node of the graph. *)
Definition plan_queries_node (JSON_parse : string → option jsval) (env : Env) : Node :=
  wrapNode "Plan queries" (Stage.planQueries JSON_parse env)
           (λ state, [SetQueries (fallbackQueries (idea state))]).

(** ** Scenarios *)

(** Every external call raises. *)
Definition offline : Env :=
  {| my_info := Rejected (mkError "ECONNREFUSED");
     llm_invoke := λ _, Rejected (mkError "ECONNREFUSED");
     twitter := λ _, Rejected (mkError "ECONNREFUSED");
     searchCommunityTweets := Rejected (mkError "ECONNREFUSED");
     tvly_search := λ _ _, {| latency := Some 120%Z; result := Rejected (mkError "ECONNREFUSED") |};
     gemini_text := Rejected (mkError "ECONNREFUSED") |}.

Definition page (u : string) : Source :=
  {| url := Some u; title := u; content := "" |}.

(** Every web search answers with five pages of its own. *)
Definition crowded_web : Env :=
  {| my_info := my_info offline;
     llm_invoke := llm_invoke offline;
     twitter := twitter offline;
     searchCommunityTweets := searchCommunityTweets offline;
     tvly_search := λ _ i,
       {| latency := Some 900%Z;
          result := Fulfilled (Some
            {| results := Some ((λ j, page ("https://example.org/" +:+ show_nat i
                                              +:+ "/" +:+ show_nat j)) <$> seq 0 5);
               answer := None |}) |};
     gemini_text := gemini_text offline |}.

Definition fresh_run : Run :=
  {| emitted := []; tavilyPrefetchPromise := None; launched := 0 |}.

(** The planning model answers with two objects in a row. *)
Definition chatty : Env :=
  {| my_info := my_info offline;
     llm_invoke := λ call,
       match call with
       | PlanLlm => Fulfilled (VStr "{} {}")
       | _ => llm_invoke offline call
       end;
     twitter := twitter offline;
     searchCommunityTweets := searchCommunityTweets offline;
     tvly_search := tvly_search offline;
     gemini_text := gemini_text offline |}.

(** Analytics that find nothing and report an empty object. *)
Definition silent : Analytics :=
  {| trends_signals := λ _ _, ([], Returns ());
     trends_report := λ _ _ _, ([], Returns (VObj []));
     demand_signals := λ _ _, ([], Returns ());
     demand_report := λ _ _ _, ([], Returns (VObj []));
     adopter_signals := λ _ _, ([], Returns ());
     adopter_report := λ _ _ _, ([], Returns (VObj []));
     funder_signals := λ _ _, ([], Returns ());
     funder_report := λ _ _ _, ([], Returns (VObj []));
     synthesis_prompt := λ _, Returns () |}.

(** A parser that accepts the text of the empty object and nothing else; on
    the texts of the scenarios below it agrees with [JSON.parse]. *)
Definition parse_empty_object (text : string) : option jsval :=
  if String.eqb text "{}" then Some (VObj []) else None.

(** ** Predicates on stage computations *)

(** A computation that neither starts the web research nor touches its
    handle. *)
Definition quiet {A} (m : M A) : Prop :=
  ∀ r, tavilyPrefetchPromise (m r).2 = tavilyPrefetchPromise r ∧
       launched (m r).2 = launched r.

Definition keeps {A} (I : Run → Prop) (m : M A) : Prop := ∀ r, I r → I (m r).2.

(** Before the join: nothing launched and no handle, or one launch and its
    handle. *)
Definition prefetch_inv (r : Run) : Prop :=
  match tavilyPrefetchPromise r with
  | None => launched r = 0
  | Some _ => launched r = 1
  end.

Definition launched_once (r : Run) : Prop := launched r = 1.

(** * Further code of the repository *)

(** ** Strings *)

Definition lower_char (c : Ascii.ascii) : Ascii.ascii :=
  let n := Ascii.nat_of_ascii c in
  if (65 <=? n) && (n <=? 90) then Ascii.ascii_of_nat (n + 32) else c.

(** [s.toLowerCase()] on text of ASCII characters: the letters A to Z are
    lowered, every other code unit is kept, and the length does not change. *)
Fixpoint toLowerCase (s : string) : string :=
  match s with
  | EmptyString => EmptyString
  | String c rest => String (lower_char c) (toLowerCase rest)
  end.

(** [s.includes(needle)] *)
Fixpoint includes (needle s : string) : bool :=
  String.prefix needle s ||
  match s with
  | EmptyString => false
  | String _ rest => includes needle rest
  end.

(** ** Objects of the Twitter API *)

Module Twitter.

(** The fields the code reads, with the types the API gives them; an absent
    field is [None].  A tweet has a [text]: the analyzer calls
    [t.text.toLowerCase()] without a guard. *)
Record User : Type := {
  userName : option string;
  name : option string;
  description : option string;
  followers : option Z;
  isBlueVerified : option bool;
  profilePicture : option string;
}.

Record Tweet : Type := {
  text : string;
  author : option User;
  url : option string;
  likeCount : option Z;
  retweetCount : option Z;
  createdAt : option string;
}.

Record Trend : Type := {
  trend_name : option string;
  target_query : option string;
  meta_description : option string;
}.

(** [x || fallback] on an optional string: the empty string is falsy. *)
Definition or_string (x : option string) (fallback : string) : string :=
  match x with
  | Some s => if String.eqb s "" then fallback else s
  | None => fallback
  end.

(** [x || null] on an optional string. *)
Definition or_null (x : option string) : option string :=
  match x with
  | Some s => if String.eqb s "" then None else Some s
  | None => None
  end.

(** [x || 0] on an optional number. *)
Definition or_zero (x : option Z) : Z := default 0%Z x.

(** [(res.data.items || []).slice(0, count)], the tail of [searchTopTweets],
    [searchCommunityTweets], [searchUsers] and [getUserTweets], and of
    [searchTweets] for its [tweets] field. *)
Definition first_items {A} (items : option (list A)) (count : nat) : list A :=
  take count (default [] items).

End Twitter.

(** ** [services/analyzer.js] *)

Module Analyzer.
Import Twitter.

Definition POSITIVE : list string :=
  ["love"; "great"; "amazing"; "excellent"; "helpful"; "good"; "best"; "awesome";
   "solved"; "works"; "perfect"; "brilliant"; "useful"; "fantastic"; "need this";
   "want this"; "would pay"; "would use"].

Definition NEGATIVE : list string :=
  ["hate"; "bad"; "terrible"; "awful"; "broken"; "failed"; "sucks"; "struggling";
   "problem"; "issue"; "frustrated"; "annoying"; "waste"; "useless";
   "disappointing"; "can't find"; "wish there was"].

Definition PAIN_SIGNALS : list string :=
  ["i wish"; "looking for"; "struggling with"; "need a tool"; "anyone know";
   "how do i"; "can't find"; "is there a way"; "help me"; "frustrated";
   "problem with"; "hate that"; "wish someone"; "does anyone"; "need help";
   "stuck on"; "can't figure"].

Definition INVESTOR_SIGNALS : list string :=
  ["investor"; "vc"; "venture capital"; "angel"; "fund"; "partner at";
   "investing in"; "portfolio"; "seed"; "series a"; "backed by"; "investing";
   "funding"; "startup investor"; "early stage"].

Inductive Sentiment : Type := positive | negative | neutral.

(** [words.filter((w) => text.includes(w)).length] *)
Definition hits (words : list string) (text : string) : nat :=
  length (List.filter (λ w, includes w text) words).

(** The label the [map] callback of [analyzeSentiment] gives a tweet. *)
Definition sentiment_of (t : Tweet) : Sentiment :=
  let lowered := toLowerCase (text t) in
  let pos := hits POSITIVE lowered in
  let neg := hits NEGATIVE lowered in
  if neg <? pos then positive
  else if pos <? neg then negative
  else neutral.

Definition tally (label : Sentiment) (tweets : list Tweet) : nat :=
  length (List.filter (λ t, match sentiment_of t, label with
                            | positive, positive | negative, negative
                            | neutral, neutral => true
                            | _, _ => false
                            end) tweets).

Record Mood : Type := {
  positive_share : Z;
  negative_share : Z;
  neutral_share : Z;
  scored : list (Tweet * Sentiment);
}.

(** [analyzeSentiment]; [percent part total] stands for the floating-point
    [Math.round((part / total) * 100)]. *)
Definition analyzeSentiment (percent : nat → nat → Z) (tweets : list Tweet) : Mood :=
  let total := match length tweets with O => 1 | n => n end in
  {| positive_share := percent (tally positive tweets) total;
     negative_share := percent (tally negative tweets) total;
     neutral_share := percent (tally neutral tweets) total;
     scored := (λ t, (t, sentiment_of t)) <$> tweets |}.

Record Adopter : Type := {
  adopter_username : string;
  adopter_name : string;
  adopter_avatar : option string;
  adopter_tweet : string;
  adopter_url : option string;
  adopter_likes : Z;
  adopter_retweets : Z;
  adopter_createdAt : option string;
  painSignal : string;
}.

Definition has_pain (t : Tweet) : bool :=
  existsb (λ s, includes s (toLowerCase (text t))) PAIN_SIGNALS.

Definition to_adopter (t : Tweet) : Adopter :=
  {| adopter_username := or_string (author t ≫= userName) "unknown";
     adopter_name := or_string (author t ≫= name) "Unknown";
     adopter_avatar := or_null (author t ≫= profilePicture);
     adopter_tweet := text t;
     adopter_url := url t;
     adopter_likes := or_zero (likeCount t);
     adopter_retweets := or_zero (retweetCount t);
     adopter_createdAt := createdAt t;
     painSignal :=
       default "" (List.find (λ s, includes s (toLowerCase (text t))) PAIN_SIGNALS) |}.

Definition filterAdopters (tweets : list Tweet) : list Adopter :=
  take 10 (to_adopter <$> List.filter has_pain tweets).

Record Funder : Type := {
  funder_username : string;
  funder_name : string;
  funder_avatar : option string;
  funder_bio : string;
  funder_tweet : string;
  funder_url : option string;
  funder_followers : Z;
  funder_verified : bool;
  funder_createdAt : option string;
}.

Definition bio_of (t : Tweet) : string :=
  or_string (author t ≫= description) "".

Definition has_investor_bio (t : Tweet) : bool :=
  existsb (λ s, includes s (toLowerCase (bio_of t))) INVESTOR_SIGNALS.

Definition to_funder (t : Tweet) : Funder :=
  {| funder_username := or_string (author t ≫= userName) "unknown";
     funder_name := or_string (author t ≫= name) "Unknown";
     funder_avatar := or_null (author t ≫= profilePicture);
     funder_bio := bio_of t;
     funder_tweet := text t;
     funder_url := url t;
     funder_followers := or_zero (author t ≫= followers);
     funder_verified := default false (author t ≫= isBlueVerified);
     funder_createdAt := createdAt t |}.

Definition filterFunders (tweets : list Tweet) : list Funder :=
  take 10 (to_funder <$> List.filter has_investor_bio tweets).

End Analyzer.

(** ** Data shaping in the stages of [graph.js] *)

Module Research.
Import Twitter.

(** The value of a settled call, [[]] when it was rejected; the call is one
    of the search functions of [services/twitter.js], whose result is the
    first [count] items of the response. *)
Definition settled_items {A} (res : Outcome (option (list A))) (count : nat) : list A :=
  match res with
  | Fulfilled items => first_items items count
  | Rejected _ => []
  end.

(** *** [adopterSearch] *)

Record AdopterData : Type := {
  adopter_count : nat;
  users : list Analyzer.Adopter;
  allPainTweets : nat;
  adopter_insights : jsval;
}.

Definition adopterData (painRes recentPainRes : Outcome (option (list Tweet)))
    (insights : jsval) : AdopterData :=
  let painTweets := settled_items painRes 25 in
  let recentPain := settled_items recentPainRes 20 in
  let allPain := painTweets ++ recentPain in
  let adopters := Analyzer.filterAdopters allPain in
  {| adopter_count := length adopters;
     users := take 12 adopters;
     allPainTweets := length allPain;
     adopter_insights := insights |}.

(** *** [funderSearch] *)

Definition INVESTOR_SIGNALS : list string :=
  ["investor"; "vc"; "venture"; "angel"; "fund"; "partner"; "portfolio"; "seed";
   "series"; "backed"; "investing"; "capital"].

Definition looks_like_investor (u : User) : bool :=
  existsb (λ s, includes s (toLowerCase (or_string (description u) ""))) INVESTOR_SIGNALS.

(** The [filter] callback over [seen], a set of user names in which the
    absent name is a key like any other. *)
Fixpoint unique_users (seen : gset (option string)) (allUsers : list User) : list User :=
  match allUsers with
  | [] => []
  | u :: rest =>
      if bool_decide (userName u ∈ seen) then unique_users seen rest
      else u :: unique_users ({[userName u]} ∪ seen) rest
  end.

Definition funders (investorUsers vcUsers : list User) : list User :=
  unique_users ∅ (List.filter looks_like_investor (investorUsers ++ vcUsers)).

Record Profile : Type := {
  profile_username : option string;
  profile_name : option string;
  bio : string;
  profile_followers : Z;
  verified : bool;
  avatar : option string;
}.

Definition to_profile (u : User) : Profile :=
  {| profile_username := userName u;
     profile_name := name u;
     bio := or_string (description u) "";
     profile_followers := or_zero (followers u);
     verified := default false (isBlueVerified u);
     avatar := or_null (profilePicture u) |}.

Record FunderData : Type := {
  funder_count : nat;
  profileInvestors : list Profile;
  tweetInvestors : list Analyzer.Funder;
  funder_insights : jsval;
}.

Definition funderData (investorRes vcRes : Outcome (option (list User)))
    (funderTweetRes : Outcome (option (list Tweet))) (insights : jsval) : FunderData :=
  let investorUsers := settled_items investorRes 20 in
  let vcUsers := settled_items vcRes 15 in
  let funderTweets := settled_items funderTweetRes 20 in
  let found := funders investorUsers vcUsers in
  let funderFromTweets := Analyzer.filterFunders funderTweets in
  {| funder_count := length found + length funderFromTweets;
     profileInvestors := to_profile <$> take 10 found;
     tweetInvestors := take 5 funderFromTweets;
     funder_insights := insights |}.

End Research.

(** ** [auth.js] *)

Module Auth.

Fixpoint slice_from (n : nat) (s : string) : string :=
  match n, s with
  | O, _ => s
  | S n', String _ rest => slice_from n' rest
  | S _, EmptyString => EmptyString
  end.

(** [extractToken] on the [Authorization] header and the [token] query
    parameter of the request. *)
Definition extractToken (authorization query_token : option string) : option string :=
  let auth := Twitter.or_string authorization "" in
  if String.prefix "Bearer " auth then Some (slice_from 7 auth)
  else
    match query_token with
    | Some token => if String.eqb token "" then None else Some token
    | None => None
    end.

(** [decodeToken]; [verify token] is [jwt.verify(token, secret)], [None]
    when it throws. *)
Definition decodeToken (verify : string → option jsval) (token : string) : jsval :=
  default VNull (verify token).

(** What [requireAuth] does with the request. *)
Inductive Gate : Type :=
| Unauthorized
| InvalidToken
| Next (userId email name : jsval).

Definition requireAuth (verify : string → option jsval)
    (authorization query_token : option string) : Gate :=
  match extractToken authorization query_token with
  | None => Unauthorized
  | Some token =>
      if String.eqb token "" then Unauthorized
      else
        let payload := decodeToken verify token in
        if truthy (opt_get payload "sub")
        then Next (opt_get payload "sub") (opt_get payload "email") (opt_get payload "name")
        else InvalidToken
  end.

End Auth.

(** ** Predicates on thrown values and on the event stream *)

(** A thrown value the wrapper can describe in its warning. *)
Definition describable (err : jsval) : bool :=
  negb (is_rejected (error_description err)).

(** A search that rejected with a reason the research can print in its
    warning, or that did not reject. *)
Definition reportable {A} (envelope : Outcome A) : bool :=
  match envelope with
  | Rejected reason => negb (is_rejected (reason_text reason))
  | Fulfilled _ => true
  end.

Definition is_verdict_event (ev : Event) : bool := String.eqb (type ev) "verdict".

(** The first and the last node of the graph. *)
Definition synthesis_node (JSON_parse : string → option jsval) (an : Analytics)
    (env : Env) : Node :=
  wrapNode "Synthesis" (Stage.geminiSynthesis JSON_parse an env)
           (λ state, [SetVerdict (fallbackVerdict state)]).

(** A plan whose entries all have a string form, so that the planning stage
    can print them. *)
Definition plan_prints (plan : jsval) : bool :=
  match Object_entries plan with
  | Fulfilled entries => forallb (λ entry, negb (is_rejected (js_String entry.2))) entries
  | Rejected _ => false
  end.

(** A verdict the tail of [geminiSynthesis] prints without throwing: it is
    neither [null] nor [undefined], its [score] has a string form, and its
    [recommendation] is absent or a string. *)
Definition printable (v : jsval) : bool :=
  negb (nullish v) &&
  negb (is_rejected (js_String (opt_get v "score"))) &&
  negb (is_rejected (shout (opt_get v "recommendation"))).

(** The number of "verdict" events among [new]. *)
Definition verdict_events (new : list Event) : nat :=
  length (List.filter is_verdict_event new).

(** A computation that appends exactly one "verdict" event when it returns
    and none when it throws. *)
Definition announces_verdict {A} (m : M A) : Prop :=
  ∀ r, ∃ new,
    emitted (m r).2 = emitted r ++ new ∧
    verdict_events new = if is_rejected (m r).1 then 0 else 1.

(** From a run without a prefetch: the prefetch is started when the
    computation returns, and not when it throws. *)
Definition starts_on_return {A} (m : M A) : Prop :=
  ∀ r, tavilyPrefetchPromise r = None →
    match m r with
    | (Fulfilled _, r') =>
        is_Some (tavilyPrefetchPromise r') ∧ launched r' = S (launched r)
    | (Rejected _, r') =>
        tavilyPrefetchPromise r' = None ∧ launched r' = launched r
    end.

(** The second tier of the synthesis is reached: the first model threw a
    value whose [message] the stage can print, or its text did not parse. *)
Definition reaches_second_tier (JSON_parse : string → option jsval) (env : Env) : bool :=
  match gemini_text env with
  | Fulfilled text =>
      match JSON_parse (default text (match_braces text)) with
      | Some _ => false
      | None => true
      end
  | Rejected err =>
      match get err "message" with
      | Fulfilled m => negb (is_rejected (slice_text 60 m))
      | Rejected _ => false
      end
  end.

(** The first model answers with the empty object. *)
Definition terse : Env :=
  {| my_info := my_info offline;
     llm_invoke := llm_invoke offline;
     twitter := twitter offline;
     searchCommunityTweets := searchCommunityTweets offline;
     tvly_search := tvly_search offline;
     gemini_text := Fulfilled "{}" |}.

(** The first model fails and the second answers with the empty object. *)
Definition relayed : Env :=
  {| my_info := my_info offline;
     llm_invoke := λ call,
       match call with
       | VerdictLlm => Fulfilled (VStr "{}")
       | _ => llm_invoke offline call
       end;
     twitter := twitter offline;
     searchCommunityTweets := searchCommunityTweets offline;
     tvly_search := tvly_search offline;
     gemini_text := gemini_text offline |}.

(** The planning call rejects with [null]; every other call raises. *)
Definition null_planner : Env :=
  {| my_info := my_info offline;
     llm_invoke := λ call,
       match call with
       | PlanLlm => Rejected VNull
       | _ => llm_invoke offline call
       end;
     twitter := twitter offline;
     searchCommunityTweets := searchCommunityTweets offline;
     tvly_search := tvly_search offline;
     gemini_text := gemini_text offline |}.

(** The prefetch has not rejected: no handle, or a handle that resolved. *)
Definition healthy (r : Run) : Prop := exits r = false.

(** Every web search ends in a way the research can report: it resolves,
    it runs into its timer, or it rejects with a reason whose [message] can
    be printed, as that of an [Error] can. *)
Definition searches_reportable (env : Env) : Prop :=
  ∀ n i, reportable (race_timeout (tvly_search env n i)).2 = true.

(** An outcome that is no rejection with anything but an [Error]. *)
Definition fails_with_Error {A} (o : Outcome A) : Prop :=
  ∀ err, o = Rejected err → has_message err = true.

(** A property of runs that depends on the handle and on the number of
    launches only. *)
Definition framed (I : Run → Prop) : Prop :=
  ∀ r r', tavilyPrefetchPromise r' = tavilyPrefetchPromise r →
          launched r' = launched r → I r → I r'.

(** A computation that, from a run in [I], throws [Error]s only and ends
    in [I]. *)
Definition disciplined {A} (I : Run → Prop) (m : M A) : Prop :=
  ∀ r, I r → I (m r).2 ∧ fails_with_Error (m r).1.

Definition any_run (r : Run) : Prop := True.

(** The models reject with [Error]s only. *)
Definition models_raise_Errors (env : Env) : Prop :=
  ∀ call, fails_with_Error (llm_invoke env call).

(** The planning model answers with the empty object, and every web search
    rejects with an object whose [message] is the number 42. *)
Definition unprintable_refusal : Env :=
  {| my_info := my_info offline;
     llm_invoke := λ call,
       match call with
       | PlanLlm => Fulfilled (VStr "{}")
       | _ => llm_invoke offline call
       end;
     twitter := twitter offline;
     searchCommunityTweets := searchCommunityTweets offline;
     tvly_search := λ _ _,
       {| latency := Some 120%Z; result := Rejected (VObj [("message", VNum 42)]) |};
     gemini_text := gemini_text offline |}.



(** A computation that only appends to the event stream, and only events
    that satisfy [ok]. *)
Definition appends {A} (ok : Event → Prop) (m : M A) : Prop :=
  ∀ r, ∃ new, emitted (m r).2 = emitted r ++ new ∧ Forall ok new.

(** * Properties *)

(** ** Reasoning about stage computations *)

Lemma bind_run {A B} (m : M A) (f : A → M B) (r : Run) :
  (m ≫= f) r =
    match m r with
    | (Fulfilled a, r') => f a r'
    | (Rejected e, r') => (Rejected e, r')
    end.
Proof. reflexivity. Qed.

Lemma bind_fulfilled {A B} (m : M A) (f : A → M B) (r r' : Run) (b : B) :
  (m ≫= f) r = (Fulfilled b, r') →
  ∃ a r1, m r = (Fulfilled a, r1) ∧ f a r1 = (Fulfilled b, r').
Proof.
  rewrite bind_run. destruct (m r) as [[a|e] r1]; intros H.
  - by exists a, r1.
  - discriminate H.
Qed.

Lemma try_catch_fulfilled {A} (body : M A) (handler : jsval → M A) (r r' : Run) (a : A) :
  try_catch body handler r = (Fulfilled a, r') →
  body r = (Fulfilled a, r') ∨
  ∃ e r1, body r = (Rejected e, r1) ∧ handler e r1 = (Fulfilled a, r').
Proof.
  unfold try_catch. destruct (body r) as [[x|e] r1]; intros H.
  - by left.
  - right. by exists e, r1.
Qed.

(** ** Code units *)

Lemma units_of_cases (c : Ascii.ascii) : units_of c = 0 ∨ units_of c = 1 ∨ units_of c = 2.
Proof. unfold units_of. repeat case_match; auto. Qed.

Lemma units_of_continuation (n : N) :
  (128 ≤ n < 192)%N → units_of (Ascii.ascii_of_N n) = 0.
Proof.
  intros Hn. unfold units_of. rewrite Ascii.N_ascii_embedding by lia.
  destruct (N.ltb_spec n 128); [lia|]. destruct (N.ltb_spec n 192); [done|lia].
Qed.

Lemma high_surrogate_length (c : Ascii.ascii) (rest : string) :
  js_length (high_surrogate c rest) ≤ 1.
Proof.
  unfold high_surrogate. destruct rest as [|b1 [|b2 rest]]; cbn [js_length]; [lia..|].
  change (units_of (Ascii.ascii_of_N 237)) with 1.
  rewrite !units_of_continuation; [lia|..];
    match goal with
    | |- (128 ≤ 128 + ?x mod 64 < 192)%N =>
        assert (x `mod` 64 < 64)%N as Hx by (by apply N.mod_upper_bound);
        revert Hx; generalize (x `mod` 64)%N; intros; lia
    end.
Qed.

(** [slice(0, n)] keeps at most [n] code units. *)
Lemma slice0_length (n : nat) (s : string) : js_length (slice0 n s) ≤ n.
Proof.
  revert n. induction s as [|c s IH]; intros n; [cbn; lia|].
  cbn [slice0]. destruct (units_of_cases c) as [Hc|[Hc|Hc]]; rewrite Hc.
  - cbn [js_length]. rewrite Hc. apply IH.
  - destruct n as [|n]; [cbn; lia|]. cbn [js_length]. rewrite Hc.
    specialize (IH n). lia.
  - destruct n as [|[|n]]; [cbn; lia| apply high_surrogate_length |].
    cbn [js_length]. rewrite Hc. specialize (IH n). lia.
Qed.

(** ** The fault-isolating wrapper *)

Lemma has_message_inv (err : jsval) :
  has_message err = true → ∃ m, opt_get err "message" = VStr m ∧ nullish err = false.
Proof.
  unfold has_message. destruct err; cbn; try done.
  destruct (lookup_field _ _) eqn:Hm; try done. intros _. by eexists.
Qed.

(** The description of an [Error]: its message cut to 80 code units, or
    "unknown error" for the empty message. *)
Lemma error_description_Error (err : jsval) :
  has_message err = true →
  ∃ shown, error_description err = Fulfilled shown ∧ js_length shown ≤ 80.
Proof.
  intros (m & Hm & Hnull)%has_message_inv.
  unfold error_description, get. rewrite Hnull, Hm.
  eexists. split; [reflexivity|].
  destruct (String.eqb _ _); [vm_compute; lia | apply slice0_length].
Qed.

Lemma error_description_nullish (err : jsval) :
  nullish err = true → error_description err = Rejected TypeError.
Proof. by destruct err. Qed.

Lemma wrapNode_run {S P} (name : string) (fn : S → M P) (fallbackFn : S → P)
    (state : S) (r : Run) :
  wrapNode name fn fallbackFn state r =
    match fn state r with
    | (Fulfilled patch, r') => (Fulfilled patch, r')
    | (Rejected err, r') =>
        match error_description err with
        | Fulfilled shown =>
            (Fulfilled (fallbackFn state), push_event (warn_event name shown) r')
        | Rejected e => (Rejected e, r')
        end
    end.
Proof.
  unfold wrapNode, try_catch. destruct (fn state r) as [[p|e] r']; [done|].
  rewrite bind_run. unfold lift. by destruct (error_description e).
Qed.

(** C3.  The wrapper passes on, unmodified and with nothing added to the
    event stream, the patch of a stage that returns.  When the stage throws
    an [Error] (a value whose [message] is a string), it appends exactly one
    event, of type "warn", whose message names the stage and carries a
    description of the error of at most 80 code units, and returns
    [fallbackFn state].  But when the stage throws [null] or [undefined],
    the wrapper itself throws, a [TypeError] from its unguarded read of
    [err.message], with no event and no fallback patch: [wrapNode] does
    raise. *)
Theorem wrapNode_raises_on_null_throw {S P} (name : string) (fn : S → M P)
    (fallbackFn : S → P) (state : S) (r : Run) :
  match fn state r with
  | (Fulfilled patch, r') =>
      wrapNode name fn fallbackFn state r = (Fulfilled patch, r')
  | (Rejected err, r') =>
      if nullish err
      then wrapNode name fn fallbackFn state r = (Rejected TypeError, r')
      else if has_message err
      then ∃ warning shown,
        wrapNode name fn fallbackFn state r
          = (Fulfilled (fallbackFn state),
             {| emitted := emitted r' ++ [warning];
                tavilyPrefetchPromise := tavilyPrefetchPromise r';
                launched := launched r' |}) ∧
        type warning = "warn" ∧
        msg warning = "  ⚠ " +:+ name +:+ " failed: " +:+ shown
                        +:+ " — continuing with partial data" ∧
        error_description err = Fulfilled shown ∧
        js_length shown ≤ 80
      else True
  end.
Proof.
  rewrite wrapNode_run. destruct (fn state r) as [[patch|err] r']; [done|].
  destruct (nullish err) eqn:Hnull.
  - by rewrite error_description_nullish.
  - destruct (has_message err) eqn:Herr; [|done].
    destruct (error_description_Error err Herr) as (shown & -> & Hshort).
    by exists (warn_event name shown), shown.
Qed.

Lemma emit_all_run (evs : list Event) (r : Run) :
  emit_all evs r =
    (Fulfilled (),
     {| emitted := emitted r ++ evs;
        tavilyPrefetchPromise := tavilyPrefetchPromise r;
        launched := launched r |}).
Proof.
  unfold emit_all. f_equal. revert r.
  induction evs as [|ev evs IH]; intros r; simpl.
  - rewrite app_nil_r. by destruct r.
  - rewrite IH. simpl. by rewrite <-app_assoc.
Qed.

Lemma emit_bind {B} (ev : Event) (f : () → M B) (r : Run) :
  (emit ev ≫= f) r = f () (push_event ev r).
Proof. reflexivity. Qed.

Lemma mret_bind {A B} (a : A) (f : A → M B) (r : Run) :
  (mret a ≫= f) r = f a r.
Proof. reflexivity. Qed.

Lemma lift_bind {A B} (o : Outcome A) (f : A → M B) (r : Run) :
  (lift o ≫= f) r =
    match o with
    | Fulfilled a => f a r
    | Rejected e => (Rejected e, r)
    end.
Proof. rewrite bind_run. unfold lift. by destruct o. Qed.

Lemma try_catch_lift_bind {A B} (o : Outcome A) (handler : jsval → M A)
    (f : A → M B) (r : Run) :
  (try_catch (lift o) handler ≫= f) r =
    match o with
    | Fulfilled a => f a r
    | Rejected e => (handler e ≫= f) r
    end.
Proof. rewrite !bind_run. unfold try_catch, lift. by destruct o. Qed.

(** ** The rate limiter *)

Lemma throttle_release (now slot : Z) :
  (RateLimiter.throttle now slot).1 = Z.max now slot.
Proof.
  unfold RateLimiter.throttle; simpl.
  destruct (Z.eqb_spec (Z.max 0 (slot - now)) 0); lia.
Qed.

Lemma throttle_reserves (now slot : Z) :
  (RateLimiter.throttle now slot).2 = ((RateLimiter.throttle now slot).1 + 5600)%Z.
Proof. rewrite throttle_release. reflexivity. Qed.

Lemma releases_cons (now : Z) (rest : list Z) (slot : Z) :
  RateLimiter.releases (now :: rest) slot =
    Z.max now slot :: RateLimiter.releases rest (Z.max now slot + 5600)%Z.
Proof.
  pose proof (throttle_release now slot) as Hrel.
  pose proof (throttle_reserves now slot) as Hres.
  change (RateLimiter.releases (now :: rest) slot) with
    (let '(release, slot') := RateLimiter.throttle now slot in
     release :: RateLimiter.releases rest slot').
  destruct (RateLimiter.throttle now slot) as [release slot']; cbn [fst snd] in *.
  by subst.
Qed.

Lemma releases_after_slot (nows : list Z) (slot : Z) :
  Forall (λ release, (slot ≤ release)%Z) (RateLimiter.releases nows slot).
Proof.
  revert slot. induction nows as [|now rest IH]; intros slot; [constructor|].
  rewrite releases_cons. constructor; [lia|].
  eapply Forall_impl; [apply IH|]. cbn beta. intros x Hx. lia.
Qed.

(** C2.  Whatever the clock values at which the calls of [throttle] run
    their synchronous prefix, in whatever order the callers are interleaved,
    and whatever the slot value they start from, any two of them are
    released at least 5600 ms apart: the later call is released no earlier
    than the slot the earlier one reserved.  ([delay] is taken to last
    exactly the time asked for.) *)
Theorem throttle_releases_spaced (nows : list Z) (_nextSlot : Z)
    (i j : nat) (ri rj : Z) :
  i < j →
  RateLimiter.releases nows _nextSlot !! i = Some ri →
  RateLimiter.releases nows _nextSlot !! j = Some rj →
  (ri + 5600 ≤ rj)%Z.
Proof.
  revert _nextSlot i j. induction nows as [|now rest IH]; intros slot i j Hij Hi Hj.
  - discriminate Hi.
  - rewrite releases_cons in Hi, Hj.
    destruct j as [|j]; [lia|]. cbn [lookup list_lookup] in Hj.
    destruct i as [|i]; cbn [lookup list_lookup] in Hi.
    + injection Hi as <-.
      pose proof (releases_after_slot rest (Z.max now slot + 5600)%Z) as Hall.
      rewrite Forall_lookup in Hall. specialize (Hall _ _ Hj). cbn beta in Hall. lia.
    + eapply (IH _ i j); [lia|done..].
Qed.

Lemma throttle_releases_spaced_witness :
  RateLimiter.releases [0; 1; 9000]%Z 0 = [0; 5600; 11200]%Z ∧ (0 + 5600 ≤ 11200)%Z.
Proof.
  split; [reflexivity|].
  apply (throttle_releases_spaced [0; 1; 9000]%Z 0%Z 0 2 0%Z 11200%Z);
    [lia | reflexivity | reflexivity].
Defined.

(** ** The fan-out aggregators *)

Lemma race_timeout_outcome {A} (t : Task A) :
  (race_timeout t).2 = if times_out t then Rejected (mkError "timeout") else result t.
Proof.
  unfold race_timeout, times_out. destruct (latency t) as [d|]; [|done].
  by destruct (d <=? 25000)%Z.
Qed.

Lemma race_timeout_rejected {A} (t : Task A) :
  is_rejected (race_timeout t).2 = task_fails t.
Proof.
  rewrite race_timeout_outcome. unfold task_fails. by destruct (times_out t).
Qed.

Lemma race_timeout_bounded {A} (t : Task A) : ((race_timeout t).1 ≤ 25000)%Z.
Proof.
  unfold race_timeout. destruct (latency t) as [d|]; simpl; [|lia].
  destruct (Z.leb_spec d 25000); simpl; lia.
Qed.

Lemma gatherAll_envelopes_fmap {A} (tasks : list (Task A)) :
  (gatherAll tasks).2 = (λ t, (race_timeout t).2) <$> tasks.
Proof. unfold gatherAll, allSettled. simpl. by rewrite <-list_fmap_compose. Qed.

Lemma count_rejected_fmap {A} (tasks : list (Task A)) :
  length (filter (λ e, is_rejected e = true) ((λ t, (race_timeout t).2) <$> tasks))
  = length (filter (λ t, task_fails t = true) tasks).
Proof.
  induction tasks as [|t tasks IH]; [done|].
  rewrite fmap_cons, !filter_cons, race_timeout_rejected.
  destruct (decide (task_fails t = true)); simpl; by rewrite IH.
Qed.

Lemma settle_each_cases {A} (tasks : list (Task A)) :
  match settle_each tasks with
  | Some settled =>
      settled.*2 = result <$> tasks ∧ (Some <$> settled.*1) = latency <$> tasks
  | None => Exists (λ t, latency t = None) tasks
  end.
Proof.
  induction tasks as [|t tasks IH]; [done|]. cbn [settle_each].
  destruct (latency t) as [d|] eqn:Ht.
  - destruct (settle_each tasks) as [settled|].
    + destruct IH as [IH1 IH2]. rewrite !fmap_cons. cbn. by rewrite IH1, IH2, Ht.
    + by apply Exists_cons_tl.
  - by apply Exists_cons_hd.
Qed.

(** The envelopes a Twitter stage reads are those of the fan-out over its
    calls, whenever the calls settle. *)
Lemma settle_calls_fan_out env (delay : TwitterCall → Z) (calls : list TwitterCall) :
  snd <$> fanOut ((λ call, {| latency := Some (delay call); result := twitter env call |})
                    <$> calls)
  = Some (Stage.settle_calls env calls).
Proof.
  unfold fanOut, Stage.settle_calls.
  pose proof (settle_each_cases
    ((λ call, {| latency := Some (delay call); result := twitter env call |}) <$> calls))
    as H.
  destruct (settle_each _) as [settled|].
  - destruct H as [Hres _]. cbn. rewrite Hres, <-list_fmap_compose. done.
  - exfalso. apply Exists_exists in H as (t & Hin & Hnone).
    apply list_elem_of_fmap in Hin as (call & -> & _). done.
Qed.

(** C6 (as amended).  The fan-out of the web research returns, for every
    list of tasks and every timing, one envelope per task, in the order of
    the tasks: the envelope of a task is its own outcome when it settles
    within its 25 s timer and a "timeout" rejection otherwise, whatever its
    siblings do; the envelopes marked failed are as many as the tasks that
    fail, and the aggregate settles no later than 25 s after the launch.
    The fan-out of the Twitter stages has no timer: when every call
    settles, it returns the outcome of each, by position, once the slowest
    has settled, however late; and it never settles when a call never
    does. *)
Theorem fan_out_envelopes {A} (tasks : list (Task A)) :
  (length (gatherAll tasks).2 = length tasks ∧
   Forall2 (λ t envelope,
              envelope = if times_out t then Rejected (mkError "timeout") else result t)
           tasks (gatherAll tasks).2 ∧
   length (filter (λ envelope, is_rejected envelope = true) (gatherAll tasks).2)
     = length (filter (λ t, task_fails t = true) tasks) ∧
   ((gatherAll tasks).1 ≤ 25000)%Z) ∧
  match fanOut tasks with
  | Some (settled_at, envelopes) =>
      envelopes = result <$> tasks ∧
      length (filter (λ envelope, is_rejected envelope = true) envelopes)
        = length (filter (λ t, is_rejected (result t) = true) tasks) ∧
      Forall (λ t, ∃ d, latency t = Some d ∧ (d ≤ settled_at)%Z) tasks
  | None => Exists (λ t, latency t = None) tasks
  end.
Proof.
  split.
  - rewrite gatherAll_envelopes_fmap. split_and!.
    + by rewrite length_fmap.
    + apply Forall2_fmap_r, Forall_Forall2_diag, Forall_forall.
      intros t _. apply race_timeout_outcome.
    + apply count_rejected_fmap.
    + unfold gatherAll, allSettled. simpl.
      induction tasks as [|t tasks IH]; [simpl; lia|].
      rewrite !fmap_cons. cbn [foldr].
      pose proof (race_timeout_bounded t). lia.
  - unfold fanOut. pose proof (settle_each_cases tasks) as H.
    destruct (settle_each tasks) as [settled|]; [|done].
    destruct H as [Hres Hlat]. cbn. split_and!; [done| |].
    + rewrite Hres. clear. induction tasks as [|t tasks IH]; [done|].
      rewrite fmap_cons, !filter_cons.
      destruct (decide (is_rejected (result t) = true)); simpl; by rewrite IH.
    + clear Hres. revert settled Hlat.
      induction tasks as [|t tasks IH]; intros [|[d o] settled] Hlat; try done.
      rewrite !fmap_cons in Hlat. injection Hlat as Hd Hlat. cbn.
      constructor.
      * exists d. split; [done|lia].
      * eapply Forall_impl; [apply (IH _ Hlat)|].
        intros t' (d' & ? & ?). exists d'. split; [done|lia].
Qed.

(** C6 (as stated) fails for the fan-out of [demandCheck]: a call that takes
    30 s and then succeeds is not recorded as a timeout failure, and the
    aggregate waits for it; only the fan-out of the web research cuts it off
    at 25 s. *)
Lemma twitter_fan_out_has_no_timer :
  let slow := {| latency := Some 30000%Z; result := Fulfilled (VStr "tweets") |} in
  let broken := {| latency := Some 100%Z; result := Rejected (mkError "ECONNRESET") |} in
  fanOut [slow; broken]
    = Some (30000%Z, [Fulfilled (VStr "tweets"); Rejected (mkError "ECONNRESET")]) ∧
  gatherAll [slow; broken]
    = (25000%Z, [Rejected (mkError "timeout"); Rejected (mkError "ECONNRESET")]) ∧
  times_out slow = true ∧
  length (filter (λ t, task_fails t = true) [slow; broken]) = 2 ∧
  ¬ (∃ settled_at envelopes,
       fanOut [slow; broken] = Some (settled_at, envelopes) ∧
       length (filter (λ envelope, is_rejected envelope = true) envelopes) = 2 ∧
       (settled_at ≤ 25000)%Z).
Proof.
  split_and!; try reflexivity.
  intros (settled_at & envelopes & [= <- <-] & _ & Hlate). lia.
Qed.

(** ** Deduplication *)

Lemma url_key_Some (s : Source) (u : string) :
  url_key s = Some u → url s = Some u ∧ u ≠ "".
Proof.
  unfold url_key. destruct (url s) as [v|]; [|done].
  destruct (String.eqb_spec v ""); [done|]. by intros [= <-].
Qed.

Lemma url_set_cons (s : Source) (l : list Source) :
  url_set (s :: l) =
    match url_key s with Some u => {[u]} ∪ url_set l | None => url_set l end.
Proof. unfold url_set. simpl. by destruct (url_key s). Qed.

Lemma url_set_app (l1 l2 : list Source) :
  url_set (l1 ++ l2) = url_set l1 ∪ url_set l2.
Proof. unfold url_set. by rewrite omap_app, list_to_set_app_L. Qed.

Lemma dedupe_cons (seen : gset string) (s : Source) (rest : list Source) :
  dedupe seen (s :: rest) =
    match url_key s with
    | None => dedupe seen rest
    | Some u =>
        if decide (u ∈ seen) then dedupe seen rest
        else s :: dedupe ({[u]} ∪ seen) rest
    end.
Proof. simpl. destruct (url_key s); [|done]. by case_bool_decide; case_decide. Qed.

Lemma dedupe_sublist (seen : gset string) (l : list Source) :
  dedupe seen l `sublist_of` l.
Proof.
  revert seen. induction l as [|s rest IH]; intros seen; [done|].
  rewrite dedupe_cons. destruct (url_key s) as [u|].
  - case_decide; [by apply sublist_cons | by apply sublist_skip].
  - by apply sublist_cons.
Qed.

Lemma dedupe_fresh (seen : gset string) (l : list Source) :
  Forall (λ s, ∃ u, url_key s = Some u ∧ u ∉ seen) (dedupe seen l).
Proof.
  revert seen. induction l as [|s rest IH]; intros seen; [constructor|].
  rewrite dedupe_cons. destruct (url_key s) as [u|] eqn:Hkey; [|done].
  case_decide; [done|]. constructor; [by exists u|].
  eapply Forall_impl; [apply IH|]. intros s' (u' & ? & ?). exists u'. set_solver.
Qed.

Lemma dedupe_NoDup (seen : gset string) (l : list Source) :
  NoDup (url_key <$> dedupe seen l).
Proof.
  revert seen. induction l as [|s rest IH]; intros seen; [constructor|].
  rewrite dedupe_cons. destruct (url_key s) as [u|] eqn:Hkey; [|done].
  case_decide; [done|]. rewrite fmap_cons, Hkey. constructor; [|done].
  intros (s' & Hs' & Hin)%list_elem_of_fmap.
  pose proof (dedupe_fresh ({[u]} ∪ seen) rest) as Hfresh.
  rewrite Forall_forall in Hfresh. destruct (Hfresh _ Hin) as (u' & Hu' & Hnot).
  rewrite Hu' in Hs'. injection Hs' as ->. set_solver.
Qed.

Lemma dedupe_first (seen : gset string) (l : list Source) (u : string) :
  filter (λ s, url_key s = Some u) (dedupe seen l) =
    if decide (u ∈ seen) then [] else take 1 (filter (λ s, url_key s = Some u) l).
Proof.
  revert seen. induction l as [|s rest IH]; intros seen; [by case_decide|].
  rewrite dedupe_cons, (filter_cons _ s rest).
  destruct (url_key s) as [v|] eqn:Hkey.
  - destruct (decide (v = u)) as [->|Hne].
    + rewrite (decide_True (P := Some u = Some u)) by done.
      destruct (decide (u ∈ seen)) as [Hu|Hu].
      * by rewrite IH, decide_True.
      * rewrite filter_cons, Hkey, decide_True by done.
        rewrite IH, decide_True by set_solver. done.
    + rewrite (decide_False (P := Some v = Some u)) by congruence.
      destruct (decide (v ∈ seen)) as [Hv|Hv]; [by rewrite IH|].
      rewrite filter_cons, Hkey, decide_False by congruence.
      rewrite IH. destruct (decide (u ∈ seen)).
      * rewrite decide_True by set_solver. done.
      * rewrite decide_False by set_solver. done.
  - rewrite IH. by rewrite (decide_False (P := None = Some u)).
Qed.

Lemma dedupe_length (seen : gset string) (l : list Source) :
  length (dedupe seen l) = size (url_set l ∖ seen).
Proof.
  revert seen. induction l as [|s rest IH]; intros seen.
  - unfold url_set. simpl. by rewrite difference_disjoint_L, size_empty by set_solver.
  - rewrite dedupe_cons, url_set_cons. destruct (url_key s) as [u|]; [|done].
    case_decide as Hu.
    + rewrite IH. f_equal. set_solver.
    + simpl. rewrite IH.
      assert (({[u]} ∪ url_set rest) ∖ seen
              = {[u]} ∪ url_set rest ∖ ({[u]} ∪ seen)) as ->.
      { apply set_eq. intros x. destruct (decide (x = u)); set_solver. }
      rewrite (size_union (C := gset string) {[u]}) by set_solver.
      by rewrite size_singleton.
Qed.

(** C7.  For every list of result items, the deduplicated list is a sublist
    of the input (relative order and content of the survivors are kept),
    every survivor carries a URL, no two survivors share one, and for every
    URL the survivors carrying it are exactly the first input item that
    carries it.  Hence the number of
    unique sources is the size of the set of URLs, and, for result sets that
    overlap, the size of the union of their URL sets. *)
Theorem uniqueSources_first_occurrences (allSources : list Source) :
  uniqueSources allSources `sublist_of` allSources ∧
  Forall (λ s, is_Some (url_key s)) (uniqueSources allSources) ∧
  NoDup (url_key <$> uniqueSources allSources) ∧
  (∀ u, filter (λ s, url_key s = Some u) (uniqueSources allSources)
        = take 1 (filter (λ s, url_key s = Some u) allSources)) ∧
  length (uniqueSources allSources) = size (url_set allSources) ∧
  (∀ first second,
     length (uniqueSources (first ++ second)) = size (url_set first ∪ url_set second)).
Proof.
  unfold uniqueSources. split_and!.
  - apply dedupe_sublist.
  - eapply Forall_impl; [apply dedupe_fresh|]. intros s (u & -> & _). by eexists.
  - apply dedupe_NoDup.
  - intros u. rewrite dedupe_first. by rewrite decide_False by set_solver.
  - rewrite dedupe_length. f_equal. set_solver.
  - intros first second. rewrite dedupe_length, url_set_app. f_equal. set_solver.
Qed.

(** ** The web research task *)

Lemma visit_run (queries : list string) (acc : Gathered) (i : nat)
    (r : Outcome (option TavilyResponse)) (run : Run) :
  match visit queries acc i r run with
  | (Fulfilled g, _) => allSources g = allSources acc ++ found_by r ∧ reportable r = true
  | (Rejected _, _) => reportable r = false
  end.
Proof.
  destruct r as [[value|]|reason]; cbn [visit found_by reportable].
  - by rewrite emit_bind.
  - by rewrite app_nil_r.
  - rewrite lift_bind. destruct (reason_text reason); [|done].
    rewrite emit_bind. by rewrite app_nil_r.
Qed.

(** The loop gathers the results of the searches that succeeded; it throws
    only at a search whose rejection it cannot print. *)
Lemma gather_run (queries : list string) (acc : Gathered) (i : nat)
    (settled : list (Outcome (option TavilyResponse))) (run : Run) :
  match gather queries acc i settled run with
  | (Fulfilled g, _) =>
      allSources g = allSources acc ++ found settled ∧
      Forall (λ envelope, reportable envelope = true) settled
  | (Rejected _, _) => Exists (λ envelope, reportable envelope = false) settled
  end.
Proof.
  revert acc i run. induction settled as [|r rest IH]; intros acc i run.
  - unfold found. simpl. by rewrite app_nil_r.
  - cbn [gather]. rewrite bind_run.
    pose proof (visit_run queries acc i r run) as Hvisit.
    destruct (visit queries acc i r run) as [[acc'|e] run'].
    + destruct Hvisit as [Hacc Hr]. specialize (IH acc' (S i) run').
      destruct (gather queries acc' (S i) rest run') as [[g|e] run''].
      * destruct IH as [IH1 IH2]. split; [|by constructor].
        rewrite IH1, Hacc. unfold found. rewrite fmap_cons. cbn [concat].
        by rewrite app_assoc.
      * by apply Exists_cons_tl.
    + by apply Exists_cons_hd.
Qed.

Lemma runSingleTavilyResearch_run (env : Env) (idea : string) (r : Run) :
  let settled :=
    (gatherAll (imap (λ i _, tvly_search env (launched r) i) (searchQueries idea))).2 in
  match Stage.runSingleTavilyResearch env idea r with
  | (Fulfilled data, _) =>
      ∃ g, data = web_intel g ∧ allSources g = found settled ∧
           Forall (λ envelope, reportable envelope = true) settled
  | (Rejected _, _) => Exists (λ envelope, reportable envelope = false) settled
  end.
Proof.
  intros settled. unfold Stage.runSingleTavilyResearch. fold settled.
  rewrite bind_run.
  match goal with
  | |- context [gather ?q ?acc ?i settled ?run] =>
      pose proof (gather_run q acc i settled run) as Hg;
      destruct (gather q acc i settled run) as [[g|e] run']
  end; [|done].
  rewrite emit_bind. destruct Hg as [Hg Hok]. by exists g.
Qed.

Lemma url_of_kept (seen : gset string) (l : list Source) :
  Forall (λ s, ∃ u, url s = Some u ∧ u ≠ "" ∧ url_key s = url s) (dedupe seen l).
Proof.
  eapply Forall_impl; [apply dedupe_fresh|].
  intros s (u & Hkey & _). destruct (url_key_Some _ _ Hkey) as [Hurl Hne].
  exists u. by rewrite Hkey, Hurl.
Qed.

(** C10.  Every object the web research task resolves to lists at most 15
    sources, each with a non-empty URL that no other listed source has, and
    its [sourceCount] is the number of distinct non-empty URLs among the
    results of the searches that succeeded (items without a URL count for
    nothing).  So [sourceCount] is at least the number of listed sources,
    and there are runs in which it is larger.  The task resolves unless a
    search rejected with a reason whose [message] it cannot print. *)
Theorem web_intel_sources (env : Env) (idea : string) (r : Run) :
  match Stage.runSingleTavilyResearch env idea r with
  | (Fulfilled data, _) =>
     length (sources data) ≤ 15 ∧
     Forall (λ s, ∃ u, url s = Some u ∧ u ≠ "") (sources data) ∧
     NoDup (url <$> sources data) ∧
     sourceCount data =
       size (url_set (found (gatherAll
               (imap (λ i _, tvly_search env (launched r) i) (searchQueries idea))).2)) ∧
     length (sources data) ≤ sourceCount data
  | (Rejected _, _) =>
     Exists (λ envelope, reportable envelope = false)
       (gatherAll (imap (λ i _, tvly_search env (launched r) i) (searchQueries idea))).2
  end ∧
  (∃ data r',
     Stage.runSingleTavilyResearch crowded_web "pet food" fresh_run = (Fulfilled data, r') ∧
     length (sources data) = 15 ∧ sourceCount data = 20).
Proof.
  split.
  - pose proof (runSingleTavilyResearch_run env idea r) as Hrun. cbv zeta in Hrun.
    destruct (Stage.runSingleTavilyResearch env idea r) as [[data|e] r']; [|done].
    destruct Hrun as (g & -> & Hg & _).
    unfold web_intel. cbn [sources sourceCount]. rewrite Hg.
    set (all := found _). unfold uniqueSources.
    pose proof (url_of_kept ∅ all) as Hkept.
    split_and!.
    + rewrite length_take. lia.
    + eapply Forall_impl; [by apply Forall_take|].
      intros s (u & ? & ? & _). by exists u.
    + rewrite (Forall_fmap_ext_1 url url_key).
      * rewrite fmap_take.
        eapply sublist_NoDup; [apply dedupe_NoDup | apply sublist_take].
      * eapply Forall_impl; [by apply Forall_take|].
        by intros s (u & _ & _ & ->).
    + rewrite dedupe_length. f_equal. set_solver.
    + rewrite length_take. lia.
  - eexists _, _. split; [vm_compute; reflexivity|]. by vm_compute.
Qed.

(** ** What the stages throw *)

Lemma jsval_nested_ind (P : jsval → Prop) :
  P VUndefined → P VNull → (∀ b, P (VBool b)) → (∀ n, P (VNum n)) →
  (∀ shown, P (VDouble shown)) → (∀ s, P (VStr s)) →
  (∀ items, Forall P items → P (VArr items)) →
  (∀ fields, P (VObj fields)) →
  ∀ v, P v.
Proof.
  intros Hu Hn Hb Hnum Hd Hs Harr Hobj. fix IH 1.
  intros [ | | b | n | shown | s | items | fields];
    [apply Hu | apply Hn | apply Hb | apply Hnum | apply Hd | apply Hs | | apply Hobj].
  apply Harr. induction items as [|x items IHitems]; constructor; [apply IH | exact IHitems].
Qed.

Lemma js_String_error (v : jsval) : fails_with_Error (js_String v).
Proof.
  induction v as [ | | b | n | shown | s | items IH | fields] using jsval_nested_ind;
    intros err; cbn [js_String]; try discriminate.
  - match goal with
    | |- match ?f items with Fulfilled _ => _ | Rejected _ => _ end = _ → _ =>
        set (parts := f)
    end.
    assert (fails_with_Error (parts items)) as Hparts.
    { induction IH as [|x rest Hx _ IHrest]; intros e; cbn; [discriminate|].
      destruct (nullish x).
      - destruct (parts rest) eqn:Hrest; [discriminate|]. intros [= <-]. by apply IHrest.
      - destruct (js_String x) eqn:Hsx; [|intros [= <-]; by apply Hx].
        destruct (parts rest) eqn:Hrest; [discriminate|]. intros [= <-]. by apply IHrest. }
    destruct (parts items) eqn:Hp; [discriminate|]. intros [= <-]. by apply Hparts.
  - destruct (has_own _ _); [|discriminate]. by intros [= <-].
Qed.

Lemma get_error (v : jsval) (k : string) : fails_with_Error (get v k).
Proof. intros err. unfold get. destruct (nullish v); [|discriminate]. by intros [= <-]. Qed.

Lemma slice_text_error (n : nat) (x : jsval) : fails_with_Error (slice_text n x).
Proof.
  intros err. destruct x; cbn [slice_text]; try discriminate; try by intros [= <-].
  apply js_String_error.
Qed.

Lemma shout_error (v : jsval) : fails_with_Error (shout v).
Proof. intros err. destruct v; cbn; try discriminate; by intros [= <-]. Qed.

Lemma Object_entries_error (v : jsval) : fails_with_Error (Object_entries v).
Proof. intros err. destruct v; cbn; try discriminate; by intros [= <-]. Qed.

Lemma parse_reply_error JSON_parse (reply : jsval) :
  fails_with_Error (Stage.parse_reply JSON_parse reply).
Proof.
  intros err. destruct reply; cbn; try by intros [= <-].
  destruct (JSON_parse _); [discriminate|]. by intros [= <-].
Qed.

Lemma reason_text_error (reason : jsval) : fails_with_Error (reason_text reason).
Proof.
  intros err. unfold reason_text.
  destruct (opt_get reason "message") eqn:Hm; try discriminate;
    rewrite <-?Hm; try apply slice_text_error.
  all: cbn; try by intros [= <-].
Qed.

Lemma outcome_of_error {A} (c : Computed A) : fails_with_Error (outcome_of c).
Proof. intros err. destruct c; cbn; [discriminate|]. by intros [= <-]. Qed.

Lemma js_String_TypeError (v : jsval) (err : jsval) :
  js_String v = Rejected err → err = TypeError.
Proof.
  revert err.
  induction v as [ | | b | n | shown | s | items IH | fields] using jsval_nested_ind;
    intros err; cbn [js_String]; try discriminate.
  - match goal with
    | |- match ?f items with Fulfilled _ => _ | Rejected _ => _ end = _ → _ =>
        set (parts := f)
    end.
    assert (∀ e, parts items = Rejected e → e = TypeError) as Hparts.
    { induction IH as [|x rest Hx _ IHrest]; intros e; cbn; [discriminate|].
      destruct (nullish x).
      - destruct (parts rest) eqn:Hrest; [discriminate|]. intros [= <-]. by apply IHrest.
      - destruct (js_String x) eqn:Hsx; [|intros [= <-]; by apply Hx].
        destruct (parts rest) eqn:Hrest; [discriminate|]. intros [= <-]. by apply IHrest. }
    destruct (parts items) eqn:Hp; [discriminate|]. intros [= <-]. by apply Hparts.
  - destruct (has_own _ _); [|discriminate]. by intros [= <-].
Qed.

(** ** Stage computations and the prefetch handle *)

Ltac unwind H :=
  repeat (let a := fresh "a" in
          let r := fresh "r" in
          let Hstep := fresh "Hstep" in
          apply bind_fulfilled in H as (a & r & Hstep & H)).

Lemma mret_fulfilled {A} (a b : A) (r r' : Run) :
  (mret a : M A) r = (Fulfilled b, r') → a = b ∧ r = r'.
Proof. by intros [= -> ->]. Qed.

Lemma lift_fulfilled {A} (o : Outcome A) (a : A) (r r' : Run) :
  lift o r = (Fulfilled a, r') → o = Fulfilled a ∧ r = r'.
Proof. by intros [= -> ->]. Qed.

Lemma quiet_ret {A} (a : A) : quiet (mret a).
Proof. by intros r. Qed.

Lemma quiet_emit (ev : Event) : quiet (emit ev).
Proof. by intros r. Qed.

Lemma quiet_lift {A} (o : Outcome A) : quiet (lift o).
Proof. by intros r. Qed.

Lemma quiet_emit_all (evs : list Event) : quiet (emit_all evs).
Proof. intros r. by rewrite emit_all_run. Qed.

Lemma quiet_bind {A B} (m : M A) (f : A → M B) :
  quiet m → (∀ a, quiet (f a)) → quiet (m ≫= f).
Proof.
  intros Hm Hf r. rewrite bind_run. specialize (Hm r).
  destruct (m r) as [[a|e] r1]; [|done].
  destruct (Hf a r1) as [-> ->]. done.
Qed.

Lemma quiet_try_catch {A} (body : M A) (handler : jsval → M A) :
  quiet body → (∀ e, quiet (handler e)) → quiet (try_catch body handler).
Proof.
  intros Hbody Hhandler r. unfold try_catch. specialize (Hbody r).
  destruct (body r) as [[a|e] r1]; [done|].
  destruct (Hhandler e r1) as [-> ->]. done.
Qed.

Lemma quiet_computed {A} (x : list Event * Computed A) : quiet (computed x).
Proof. apply quiet_bind; [apply quiet_emit_all | intros _; apply quiet_lift]. Qed.

Lemma quiet_for_each {A} (f : A → M unit) (l : list A) :
  (∀ x, quiet (f x)) → quiet (for_each f l).
Proof.
  intros Hf. induction l as [|x l IH]; [apply quiet_ret|].
  cbn [for_each]. apply quiet_bind; [apply Hf | by intros _].
Qed.

Ltac quiet_steps :=
  repeat first
    [ apply quiet_ret | apply quiet_emit | apply quiet_lift | apply quiet_emit_all
    | apply quiet_computed
    | apply quiet_for_each; intros ?
    | apply quiet_try_catch; [|intros ?]
    | apply quiet_bind; [|intros ?] ].

Lemma visit_quiet queries acc i r : quiet (visit queries acc i r).
Proof. destruct r as [[value|]|reason]; cbn [visit]; quiet_steps. Qed.

Lemma gather_quiet queries acc i settled : quiet (gather queries acc i settled).
Proof.
  revert acc i. induction settled as [|r rest IH]; intros acc i; cbn [gather].
  - apply quiet_ret.
  - apply quiet_bind; [apply visit_quiet | intros ?; apply IH].
Qed.

Lemma query_line_quiet entry : quiet (Stage.query_line entry).
Proof. unfold Stage.query_line. quiet_steps. Qed.

Lemma fetchTrends_quiet an env state : quiet (Stage.fetchTrends an env state).
Proof. unfold Stage.fetchTrends. cbv zeta. quiet_steps. Qed.

Lemma demandCheck_quiet an env state : quiet (Stage.demandCheck an env state).
Proof. unfold Stage.demandCheck. cbv zeta. quiet_steps. Qed.

Lemma adopterSearch_quiet an env state : quiet (Stage.adopterSearch an env state).
Proof. unfold Stage.adopterSearch. cbv zeta. quiet_steps. Qed.

Lemma funderSearch_quiet an env state : quiet (Stage.funderSearch an env state).
Proof. unfold Stage.funderSearch. cbv zeta. quiet_steps. Qed.

Lemma communityResearch_quiet env state : quiet (Stage.communityResearch env state).
Proof.
  unfold Stage.communityResearch. cbv zeta. quiet_steps.
  destruct (0 <? _); apply quiet_emit.
Qed.

Lemma geminiSynthesis_quiet JSON_parse an env state :
  quiet (Stage.geminiSynthesis JSON_parse an env state).
Proof. unfold Stage.geminiSynthesis. quiet_steps. Qed.

Lemma quiet_keeps {A} (I : Run → Prop) (m : M A) :
  (∀ r r', tavilyPrefetchPromise r' = tavilyPrefetchPromise r →
           launched r' = launched r → I r → I r') →
  quiet m → keeps I m.
Proof. intros HI Hm r Hr. destruct (Hm r) as [? ?]. by eapply HI. Qed.

Lemma prefetch_inv_frame (r r' : Run) :
  tavilyPrefetchPromise r' = tavilyPrefetchPromise r →
  launched r' = launched r → prefetch_inv r → prefetch_inv r'.
Proof. unfold prefetch_inv. by intros -> ->. Qed.

Lemma launched_once_frame (r r' : Run) :
  tavilyPrefetchPromise r' = tavilyPrefetchPromise r →
  launched r' = launched r → launched_once r → launched_once r'.
Proof. unfold launched_once. by intros _ ->. Qed.

Lemma healthy_frame (r r' : Run) :
  tavilyPrefetchPromise r' = tavilyPrefetchPromise r → healthy r → healthy r'.
Proof. unfold healthy, exits. by intros ->. Qed.

Lemma keeps_bind {A B} (I : Run → Prop) (m : M A) (f : A → M B) :
  keeps I m → (∀ a, keeps I (f a)) → keeps I (m ≫= f).
Proof.
  intros Hm Hf r Hr. rewrite bind_run. specialize (Hm r Hr).
  destruct (m r) as [[a|e] r1]; [by apply Hf | done].
Qed.

(** *** Computations that throw [Error]s only *)

Lemma healthy_framed : framed healthy.
Proof. intros r r' Hh _. by apply healthy_frame. Qed.

Lemma any_run_framed : framed any_run.
Proof. done. Qed.

Section Discipline.

Variable I : Run → Prop.
Hypothesis I_framed : framed I.

Lemma disciplined_quiet {A} (m : M A) :
  quiet m → (∀ r, fails_with_Error (m r).1) → disciplined I m.
Proof.
  intros Hq Herr r Hr. split; [|apply Herr].
  destruct (Hq r) as [Hh Hl]. by eapply I_framed.
Qed.

Lemma disciplined_ret {A} (a : A) : disciplined I (mret a).
Proof. apply disciplined_quiet; [apply quiet_ret | by intros r err]. Qed.

Lemma disciplined_emit (ev : Event) : disciplined I (emit ev).
Proof. apply disciplined_quiet; [apply quiet_emit | by intros r err]. Qed.

Lemma disciplined_emit_all (evs : list Event) : disciplined I (emit_all evs).
Proof.
  apply disciplined_quiet; [apply quiet_emit_all|].
  intros r err. by rewrite emit_all_run.
Qed.

Lemma disciplined_lift {A} (o : Outcome A) : fails_with_Error o → disciplined I (lift o).
Proof. intros Ho. apply disciplined_quiet; [apply quiet_lift | by intros r]. Qed.

Lemma disciplined_bind {A B} (m : M A) (f : A → M B) :
  disciplined I m → (∀ a, disciplined I (f a)) → disciplined I (m ≫= f).
Proof.
  intros Hm Hf r Hr. rewrite bind_run. destruct (Hm r Hr) as [Hr1 Herr].
  destruct (m r) as [[a|e] r1]; cbn [fst snd] in *.
  - by apply Hf.
  - split; [done|]. intros err [= <-]. by apply Herr.
Qed.

Lemma disciplined_try_catch {A} (body : M A) (handler : jsval → M A) :
  quiet body → (∀ e, disciplined I (handler e)) → disciplined I (try_catch body handler).
Proof.
  intros Hbody Hhandler r Hr. unfold try_catch. destruct (Hbody r) as [Hh Hl].
  destruct (body r) as [[a|e] r1]; cbn [fst snd] in *.
  - split; [by eapply I_framed | done].
  - apply Hhandler. by eapply I_framed.
Qed.

Lemma disciplined_computed {A} (x : list Event * Computed A) : disciplined I (computed x).
Proof.
  apply disciplined_bind; [apply disciplined_emit_all|].
  intros _. apply disciplined_lift, outcome_of_error.
Qed.

Lemma disciplined_for_each {A} (f : A → M unit) (l : list A) :
  (∀ x, disciplined I (f x)) → disciplined I (for_each f l).
Proof.
  intros Hf. induction l as [|x l IH]; [apply disciplined_ret|].
  cbn [for_each]. apply disciplined_bind; [apply Hf | by intros _].
Qed.

End Discipline.

Ltac error_source :=
  first [ apply js_String_error | apply get_error | apply slice_text_error
        | apply shout_error | apply Object_entries_error | apply parse_reply_error
        | apply reason_text_error | apply outcome_of_error | assumption
        | (intros ? ?; discriminate) ].

Ltac discipline HI :=
  repeat first
    [ apply (disciplined_ret _ HI) | apply (disciplined_emit _ HI)
    | apply (disciplined_emit_all _ HI) | apply (disciplined_computed _ HI)
    | apply (disciplined_lift _ HI); error_source
    | apply (disciplined_for_each _ HI); intros ?
    | apply (disciplined_try_catch _ HI); [quiet_steps|intros ?]
    | apply disciplined_bind; [|intros ?] ].

Lemma visit_disciplined I queries acc i r :
  framed I → disciplined I (visit queries acc i r).
Proof. intros HI. destruct r as [[value|]|reason]; cbn [visit]; discipline HI. Qed.

Lemma gather_disciplined I queries acc i settled :
  framed I → disciplined I (gather queries acc i settled).
Proof.
  intros HI. revert acc i. induction settled as [|r rest IH]; intros acc i; cbn [gather].
  - by apply disciplined_ret.
  - apply disciplined_bind; [by apply visit_disciplined | intros ?; apply IH].
Qed.

(** The web research changes neither the handle nor anything but the count
    of launches, and throws [Error]s only. *)
Lemma runSingleTavilyResearch_frame env idea r :
  tavilyPrefetchPromise (Stage.runSingleTavilyResearch env idea r).2 = tavilyPrefetchPromise r ∧
  launched (Stage.runSingleTavilyResearch env idea r).2 = S (launched r) ∧
  fails_with_Error (Stage.runSingleTavilyResearch env idea r).1.
Proof.
  unfold Stage.runSingleTavilyResearch.
  match goal with |- context [(?m ≫= ?f) ?r1] =>
    assert (quiet (m ≫= f)) as Hq;
      [apply quiet_bind; [apply gather_quiet | intros g; quiet_steps]|];
    assert (disciplined any_run (m ≫= f)) as Hd;
      [apply disciplined_bind;
         [by apply gather_disciplined | intros g; discipline any_run_framed]|];
    destruct (Hq r1) as [Hh Hl]; destruct (Hd r1 I) as [_ Herr]
  end.
  by rewrite Hh, Hl.
Qed.

Lemma runSingleTavilyResearch_returns env idea r :
  searches_reportable env → is_rejected (Stage.runSingleTavilyResearch env idea r).1 = false.
Proof.
  intros Hsearch. pose proof (runSingleTavilyResearch_run env idea r) as Hrun.
  cbv zeta in Hrun.
  destruct (Stage.runSingleTavilyResearch env idea r) as [[data|e] r']; [done|].
  exfalso. rewrite gatherAll_envelopes_fmap in Hrun.
  apply Exists_exists in Hrun as (envelope & Hin & Hbad).
  apply list_elem_of_fmap in Hin as (t & -> & Hin).
  apply elem_of_lookup_imap in Hin as (i & q & -> & _).
  by rewrite Hsearch in Hbad.
Qed.

Lemma startPrefetch_healthy env idea :
  searches_reportable env → disciplined healthy (Stage.startPrefetch env idea).
Proof.
  intros Hsearch r Hr. unfold Stage.startPrefetch.
  destruct (tavilyPrefetchPromise r) as [handle|] eqn:Hh; [done|].
  match goal with |- context [Stage.runSingleTavilyResearch env idea ?r1] =>
    pose proof (runSingleTavilyResearch_returns env idea r1 Hsearch) as Hrun;
    destruct (Stage.runSingleTavilyResearch env idea r1) as [[data|e] r2]
  end; [|done].
  by split.
Qed.

Lemma joinPrefetch_healthy env idea :
  searches_reportable env → disciplined healthy (Stage.joinPrefetch env idea).
Proof.
  intros Hsearch r Hr. unfold Stage.joinPrefetch.
  destruct (tavilyPrefetchPromise r) as [[data|e]|] eqn:Hh.
  - by split.
  - unfold healthy, exits in Hr. by rewrite Hh in Hr.
  - destruct (runSingleTavilyResearch_frame env idea r) as (Hh' & _ & Herr).
    split; [|done]. unfold healthy, exits. by rewrite Hh', Hh.
Qed.

Lemma planQueries_disciplined JSON_parse env state :
  searches_reportable env →
  fails_with_Error (llm_invoke env PlanLlm) →
  disciplined healthy (Stage.planQueries JSON_parse env state).
Proof.
  intros Hsearch Hllm. unfold Stage.planQueries. cbv zeta.
  do 2 (apply disciplined_bind; [by apply disciplined_emit, healthy_framed|intros _]).
  apply disciplined_bind;
    [unfold Stage.report_credits; destruct (Stage.getCredits env);
     discipline healthy_framed | intros _].
  discipline healthy_framed. by apply startPrefetch_healthy.
Qed.

Lemma fetchTrends_disciplined I an env state :
  framed I → fails_with_Error (llm_invoke env TrendsLlm) →
  disciplined I (Stage.fetchTrends an env state).
Proof. intros HI Hllm. unfold Stage.fetchTrends. cbv zeta. discipline HI. Qed.

Lemma demandCheck_disciplined I an env state :
  framed I → fails_with_Error (llm_invoke env DemandLlm) →
  disciplined I (Stage.demandCheck an env state).
Proof. intros HI Hllm. unfold Stage.demandCheck. cbv zeta. discipline HI. Qed.

Lemma adopterSearch_disciplined I an env state :
  framed I → fails_with_Error (llm_invoke env AdopterLlm) →
  disciplined I (Stage.adopterSearch an env state).
Proof. intros HI Hllm. unfold Stage.adopterSearch. cbv zeta. discipline HI. Qed.

Lemma funderSearch_disciplined I an env state :
  framed I → fails_with_Error (llm_invoke env FunderLlm) →
  disciplined I (Stage.funderSearch an env state).
Proof. intros HI Hllm. unfold Stage.funderSearch. cbv zeta. discipline HI. Qed.

Lemma communityResearch_disciplined I env state :
  framed I → disciplined I (Stage.communityResearch env state).
Proof.
  intros HI. unfold Stage.communityResearch. cbv zeta. discipline HI.
  destruct (0 <? _); by apply disciplined_emit.
Qed.

Lemma tavilyResearch_disciplined env state :
  searches_reportable env → disciplined healthy (Stage.tavilyResearch env state).
Proof.
  intros Hsearch. unfold Stage.tavilyResearch. discipline healthy_framed.
  by apply joinPrefetch_healthy.
Qed.

Lemma geminiSynthesis_disciplined I JSON_parse an env state :
  framed I → disciplined I (Stage.geminiSynthesis JSON_parse an env state).
Proof. intros HI. unfold Stage.geminiSynthesis. discipline HI. Qed.

(** ** The engine *)

Lemma wrapNode_cases name (fn : Node) (fallbackFn : State → Patch) state r :
  fails_with_Error (fn state r).1 →
  ∃ patch r',
    wrapNode name fn fallbackFn state r = (Fulfilled patch, r') ∧
    (fn state r = (Fulfilled patch, r') ∨
     (is_rejected (fn state r).1 = true ∧ patch = fallbackFn state ∧
      ∃ ev, r' = push_event ev (fn state r).2)).
Proof.
  intros Herr. rewrite wrapNode_run. destruct (fn state r) as [[patch|err] r1].
  - exists patch, r1. split; [done|]. by left.
  - destruct (error_description_Error err (Herr err eq_refl)) as (shown & -> & _).
    eexists _, _. split; [done|]. right. split_and!; [done..|]. by eexists.
Qed.

Lemma wrapNode_keeps (I : Run → Prop) name (fn : Node) (fallbackFn : State → Patch)
    state r :
  (∀ ev r0, I r0 → I (push_event ev r0)) →
  I (fn state r).2 → I (wrapNode name fn fallbackFn state r).2.
Proof.
  intros Hpush. rewrite wrapNode_run. destruct (fn state r) as [[patch|err] r1]; [done|].
  destruct (error_description err); [apply Hpush | done].
Qed.

Lemma healthy_push ev r : healthy r → healthy (push_event ev r).
Proof. done. Qed.

(** A node whose stage throws [Error]s only returns, with the patch of the
    stage or with the fallback patch. *)
Lemma node_step name (fn : Node) (fallbackFn : State → Patch) state r :
  disciplined healthy (fn state) → healthy r →
  ∃ patch r',
    wrapNode name fn fallbackFn state r = (Fulfilled patch, r') ∧ healthy r' ∧
    (fn state r = (Fulfilled patch, r') ∨
     (is_rejected (fn state r).1 = true ∧ patch = fallbackFn state)).
Proof.
  intros Hfn Hr. destruct (Hfn r Hr) as [Hr1 Herr].
  destruct (wrapNode_cases name fn fallbackFn state r Herr)
    as (patch & r' & Hrun & Hcases).
  exists patch, r'. split; [done|]. split.
  - destruct Hcases as [Hok | (_ & _ & ev & ->)].
    + by rewrite Hok in Hr1.
    + by apply healthy_push.
  - destruct Hcases as [Hok | (? & ? & _)]; [by left | by right].
Qed.

Lemma invoke_from_cons (node : Node) (rest : list Node) state r :
  invoke_from (node :: rest) state r =
    match node state r with
    | (Fulfilled patch, r') => invoke_from rest (apply_patch state patch) r'
    | (Rejected err, r') => (Rejected err, r')
    end.
Proof. reflexivity. Qed.


Lemma raises_inv {A} (o : Outcome A) :
  raises o = true → is_rejected o = true ∧ fails_with_Error o.
Proof.
  destruct o as [a|e]; cbn; [done|]. intros He. split; [done|]. by intros err [= <-].
Qed.

Lemma raises_reportable {A} (t : Task A) :
  raises (result t) = true → reportable (race_timeout t).2 = true.
Proof.
  intros Ht. rewrite race_timeout_outcome. destruct (times_out t); [done|].
  destruct (result t) as [a|e]; [done|]. cbn in Ht |- *.
  apply has_message_inv in Ht as (m & Hm & _). unfold reason_text. by rewrite Hm.
Qed.

Lemma every_call_raises_Errors env :
  every_call_raises env → models_raise_Errors env ∧ searches_reportable env.
Proof.
  intros (_ & Hllm & _ & _ & Hsearch & _). split.
  - intros call. by apply raises_inv.
  - intros n i. by apply raises_reportable.
Qed.

Ltac next_node p r1 Hr H :=
  rewrite invoke_from_cons;
  match goal with
  | Hr0 : healthy ?r |- context [wrapNode ?name ?fn ?fb ?st ?r] =>
      let Hd := fresh "Hd" in
      assert (disciplined healthy (fn st)) as Hd;
      [ | destruct (node_step name fn fb st r Hd Hr0) as (p & r1 & -> & Hr & H);
          clear Hd ]
  end.



(** C1.  The run does not always complete.  When the planning call rejects
    with [null], the planning stage throws [null], the wrapper of the node
    throws a [TypeError] from its unguarded read of [err.message], and
    [graph.invoke] rejects: no later stage runs and no verdict is produced.
    And when the prefetch rejects (here, on a search that rejected with an
    object whose [message] is a number), nobody awaits it: the rejection is
    unhandled and ends the process. *)
Theorem null_rejection_ends_run_without_verdict :
  llm_invoke null_planner PlanLlm = Rejected VNull ∧
  (∃ r', invoke (graph parse_empty_object silent null_planner) "pet food" "" fresh_run
           = (Rejected TypeError, r') ∧
         Forall (λ ev, is_verdict_event ev = false) (emitted r')) ∧
  exits (invoke (graph parse_empty_object silent unprintable_refusal)
           "pet food" "" fresh_run).2 = true.
Proof.
  split; [reflexivity|]. split.
  - eexists. split; [vm_compute; reflexivity|].
    vm_compute. repeat constructor.
  - by vm_compute.
Qed.

(** ** The research handler *)



Lemma offline_raises : every_call_raises offline.
Proof. unfold every_call_raises. simpl. by split_and!. Qed.



(** ** What a stage writes *)

Lemma planQueries_patch JSON_parse env state r patch r' :
  Stage.planQueries JSON_parse env state r = (Fulfilled patch, r') →
  ∃ queries, patch = [SetQueries queries].
Proof.
  unfold Stage.planQueries. cbv zeta. intros H. unwind H.
  apply mret_fulfilled in H as [<- _]. by eexists.
Qed.

Lemma fetchTrends_patch an env state r patch r' :
  Stage.fetchTrends an env state r = (Fulfilled patch, r') →
  ∃ data, patch = [SetTrendsData data].
Proof.
  unfold Stage.fetchTrends. cbv zeta. intros H. unwind H.
  apply mret_fulfilled in H as [<- _]. by eexists.
Qed.

Lemma demandCheck_patch an env state r patch r' :
  Stage.demandCheck an env state r = (Fulfilled patch, r') →
  ∃ data, patch = [SetDemandData data].
Proof.
  unfold Stage.demandCheck. cbv zeta. intros H. unwind H.
  apply mret_fulfilled in H as [<- _]. by eexists.
Qed.

Lemma adopterSearch_patch an env state r patch r' :
  Stage.adopterSearch an env state r = (Fulfilled patch, r') →
  ∃ data, patch = [SetAdopterData data].
Proof.
  unfold Stage.adopterSearch. cbv zeta. intros H. unwind H.
  apply mret_fulfilled in H as [<- _]. by eexists.
Qed.

Lemma funderSearch_patch an env state r patch r' :
  Stage.funderSearch an env state r = (Fulfilled patch, r') →
  ∃ data, patch = [SetFunderData data].
Proof.
  unfold Stage.funderSearch. cbv zeta. intros H. unwind H.
  apply mret_fulfilled in H as [<- _]. by eexists.
Qed.

Lemma communityResearch_patch env state r patch r' :
  Stage.communityResearch env state r = (Fulfilled patch, r') →
  ∃ data, patch = [SetCommunityData data].
Proof.
  unfold Stage.communityResearch. cbv zeta. intros H. unwind H.
  apply mret_fulfilled in H as [<- _]. by eexists.
Qed.

Lemma tavilyResearch_patch env state r patch r' :
  Stage.tavilyResearch env state r = (Fulfilled patch, r') →
  ∃ data, patch = [SetTavilyData data].
Proof.
  unfold Stage.tavilyResearch. cbv zeta. intros H. unwind H.
  apply mret_fulfilled in H as [<- _]. by eexists.
Qed.

(** ** The run in which every external call raises *)

Lemma demandCheck_needs_llm an env state r :
  is_rejected (llm_invoke env DemandLlm) = true →
  is_rejected (Stage.demandCheck an env state r).1 = true.
Proof.
  intros Hllm.
  destruct (Stage.demandCheck an env state r) as [[patch|err] r'] eqn:H; [|done].
  exfalso. unfold Stage.demandCheck in H. cbv zeta in H. unwind H.
  match goal with
  | Hstep : lift (llm_invoke env DemandLlm) _ = _ |- _ =>
      apply lift_fulfilled in Hstep as [Hstep _]; by rewrite Hstep in Hllm
  end.
Qed.

Lemma geminiSynthesis_degraded JSON_parse an env state r patch r' :
  is_rejected (gemini_text env) = true →
  is_rejected (llm_invoke env VerdictLlm) = true →
  Stage.geminiSynthesis JSON_parse an env state r = (Fulfilled patch, r') →
  patch = [SetVerdict (fallbackVerdict state)].
Proof.
  intros Hgemini Hllm H. unfold Stage.geminiSynthesis in H. unwind H.
  apply mret_fulfilled in H as [<- _]. do 2 f_equal.
  match goal with
  | Htry : try_catch _ _ _ = _ |- _ =>
      apply try_catch_fulfilled in Htry as [Hbody | (? & ? & _ & Hhandler)]
  end.
  - exfalso. unwind Hbody.
    match goal with
    | Hstep : lift (gemini_text env) _ = _ |- _ =>
        apply lift_fulfilled in Hstep as [Hstep _]; by rewrite Hstep in Hgemini
    end.
  - unwind Hhandler.
    apply try_catch_fulfilled in Hhandler as [Hbody | (? & ? & _ & Hlast)].
    + exfalso. unwind Hbody.
      match goal with
      | Hstep : lift (llm_invoke env VerdictLlm) _ = _ |- _ =>
          apply lift_fulfilled in Hstep as [Hstep _]; by rewrite Hstep in Hllm
      end.
    + by apply mret_fulfilled in Hlast as [<- _].
Qed.

(** C4 (as amended).  When every external call raises, the run of a graph
    whose prefetch has not rejected ends with the fallback verdict, whose
    recommendation is "explore"; the demand data are those of the demand
    stage's fallback patch, whose [demandScore] is 0; and the score of the
    verdict is 50, the default that [fallbackVerdict] puts in the place of
    that demand score. *)
Theorem offline_run_scores_50 JSON_parse an env (idea description : string) (r : Run) :
  every_call_raises env →
  healthy r →
  ∃ final r',
    invoke (graph JSON_parse an env) idea description r = (Fulfilled final, r') ∧
    verdict final = fallbackVerdict final ∧
    demandData final = fallbackDemand ∧
    opt_get (demandData final) "demandScore" = VNum 0 ∧
    opt_get (verdict final) "score" = VNum 50 ∧
    opt_get (verdict final) "recommendation" = VStr "explore".
Proof.
  intros Hall Hr. destruct (every_call_raises_Errors env Hall) as [Herrors Hsearch].
  destruct Hall as (_ & Hllm & _ & _ & _ & Hgemini).
  assert (∀ call, is_rejected (llm_invoke env call) = true) as Hrej.
  { intros call. by apply raises_inv. }
  apply raises_inv in Hgemini as [Hgemini _].
  unfold invoke, graph, createResearchGraph.
  next_node p1 r1 Hr1 H1; [by apply planQueries_disciplined|].
  assert (∃ v, p1 = [SetQueries v]) as [v1 ->].
  { destruct H1 as [H1 | [_ ->]]; [by eapply planQueries_patch | by eexists]. }
  next_node p2 r2 Hr2 H2; [by apply fetchTrends_disciplined; [apply healthy_framed|]|].
  assert (∃ v, p2 = [SetTrendsData v]) as [v2 ->].
  { destruct H2 as [H2 | [_ ->]]; [by eapply fetchTrends_patch | by eexists]. }
  next_node p3 r3 Hr3 H3; [by apply demandCheck_disciplined; [apply healthy_framed|]|].
  assert (p3 = [SetDemandData fallbackDemand]) as ->.
  { destruct H3 as [H3 | [_ ->]]; [|done].
    match type of H3 with
    | Stage.demandCheck _ _ ?st ?r0 = _ =>
        pose proof (demandCheck_needs_llm an env st r0 (Hrej DemandLlm)) as Hno
    end.
    by rewrite H3 in Hno. }
  next_node p4 r4 Hr4 H4; [by apply adopterSearch_disciplined; [apply healthy_framed|]|].
  assert (∃ v, p4 = [SetAdopterData v]) as [v4 ->].
  { destruct H4 as [H4 | [_ ->]]; [by eapply adopterSearch_patch | by eexists]. }
  next_node p5 r5 Hr5 H5; [by apply funderSearch_disciplined; [apply healthy_framed|]|].
  assert (∃ v, p5 = [SetFunderData v]) as [v5 ->].
  { destruct H5 as [H5 | [_ ->]]; [by eapply funderSearch_patch | by eexists]. }
  next_node p6 r6 Hr6 H6; [by apply communityResearch_disciplined, healthy_framed|].
  assert (∃ v, p6 = [SetCommunityData v]) as [v6 ->].
  { destruct H6 as [H6 | [_ ->]]; [by eapply communityResearch_patch | by eexists]. }
  next_node p7 r7 Hr7 H7; [by apply tavilyResearch_disciplined|].
  assert (∃ v, p7 = [SetTavilyData v]) as [v7 ->].
  { destruct H7 as [H7 | [_ ->]]; [by eapply tavilyResearch_patch | by eexists]. }
  next_node p8 r8 Hr8 H8; [by apply geminiSynthesis_disciplined, healthy_framed|].
  match type of H8 with
  | context [Stage.geminiSynthesis _ _ _ ?st _] =>
      assert (p8 = [SetVerdict (fallbackVerdict st)]) as ->
  end.
  { destruct H8 as [H8 | [_ ->]]; [|done].
    by eapply geminiSynthesis_degraded in H8. }
  eexists _, _. split; [reflexivity|]. by split_and!.
Qed.

Lemma offline_run_scores_50_witness :
  every_call_raises offline ∧ healthy fresh_run ∧
  ∃ final r',
    invoke (graph parse_empty_object silent offline) "pet food" "" fresh_run
      = (Fulfilled final, r') ∧
    verdict final = fallbackVerdict final ∧
    demandData final = fallbackDemand ∧
    opt_get (demandData final) "demandScore" = VNum 0 ∧
    opt_get (verdict final) "score" = VNum 50 ∧
    opt_get (verdict final) "recommendation" = VStr "explore".
Proof.
  split; [exact offline_raises|]. split; [reflexivity|].
  exact (offline_run_scores_50 parse_empty_object silent offline "pet food" "" fresh_run
           offline_raises eq_refl).
Defined.

(** C4 (as stated) fails: in the run in which every external call raises,
    the demand score of the final state is the 0 of the fallback patch while
    the score of the verdict is 50. *)
Lemma offline_score_differs_from_demand_score :
  match (invoke (graph parse_empty_object silent offline) "pet food" "" fresh_run).1 with
  | Fulfilled final =>
      verdict final = fallbackVerdict final ∧
      demandData final = fallbackDemand ∧
      opt_get (verdict final) "score" ≠ opt_get (demandData final) "demandScore"
  | Rejected _ => False
  end.
Proof. vm_compute. by split_and!. Qed.

(** ** Query planning *)

Lemma startPrefetch_run (env : Env) (idea : string) (r : Run) :
  ∃ r', Stage.startPrefetch env idea r = (Fulfilled (), r').
Proof.
  unfold Stage.startPrefetch. destruct (tavilyPrefetchPromise r); [by eexists|].
  destruct (Stage.runSingleTavilyResearch env idea _) as [settled r2]. by eexists.
Qed.

Lemma query_line_run (entry : string * jsval) (r : Run) :
  ∃ r',
    Stage.query_line entry r =
      (match js_String entry.2 with
       | Fulfilled _ => Fulfilled ()
       | Rejected _ => Rejected TypeError
       end, r') ∧
    tavilyPrefetchPromise r' = tavilyPrefetchPromise r ∧ launched r' = launched r.
Proof.
  unfold Stage.query_line. rewrite lift_bind.
  destruct (js_String entry.2) as [shown|e] eqn:Hshown; [by eexists|].
  apply js_String_TypeError in Hshown as ->. by eexists.
Qed.

(** The lines of the plan are printed up to the first entry that has no
    string form. *)
Lemma query_lines_run (entries : list (string * jsval)) (r : Run) :
  ∃ r',
    for_each Stage.query_line entries r =
      (if forallb (λ entry, negb (is_rejected (js_String entry.2))) entries
       then Fulfilled () else Rejected TypeError, r') ∧
    tavilyPrefetchPromise r' = tavilyPrefetchPromise r ∧ launched r' = launched r.
Proof.
  revert r. induction entries as [|entry entries IH]; intros r; [by eexists|].
  cbn [for_each forallb]. rewrite bind_run.
  destruct (query_line_run entry r) as (r1 & -> & Hh1 & Hl1).
  destruct (js_String entry.2) as [shown|e]; cbn [is_rejected negb andb].
  - destruct (IH r1) as (r' & -> & Hh & Hl). exists r'.
    split; [done|]. by rewrite Hh, Hl.
  - by eexists.
Qed.

(** The tail of [planQueries], once the plan is there. *)
Lemma planQueries_tail (env : Env) (idea : string) (queries : jsval) (r : Run) :
  ∃ r',
    (emit {| type := "queries"; msg := "  ✓ 7 search queries generated:" |};;
     entries ← lift (Object_entries queries);
     for_each Stage.query_line entries;;
     Stage.startPrefetch env idea;;
     mret [SetQueries queries]) r
    = (if plan_prints queries then Fulfilled [SetQueries queries] else Rejected TypeError, r').
Proof.
  rewrite emit_bind, lift_bind. unfold plan_prints.
  destruct (Object_entries queries) as [entries|e] eqn:Hentries.
  - rewrite bind_run.
    destruct (query_lines_run entries (push_event
      {| type := "queries"; msg := "  ✓ 7 search queries generated:" |} r))
      as (r1 & -> & _).
    destruct (forallb _ _); [|by eexists].
    rewrite bind_run. destruct (startPrefetch_run env idea r1) as [r' ->]. by eexists.
  - destruct queries; try discriminate; injection Hentries as <-; by eexists.
Qed.

Lemma fallbackQueries_prints (idea : string) : plan_prints (fallbackQueries idea) = true.
Proof. reflexivity. Qed.

Lemma plan_prints_not_null (plan : jsval) : plan_prints plan = true → nullish plan = false.
Proof. by destruct plan. Qed.

Lemma report_credits_run (credits : jsval) (r : Run) :
  ∃ r',
    Stage.report_credits credits r =
      (match js_String credits with
       | Fulfilled _ => Fulfilled ()
       | Rejected _ => Rejected TypeError
       end, r').
Proof.
  assert (∀ r0, ∃ r',
            (shown ← lift (js_String credits);
             emit {| type := "info";
                     msg := "  💳 Twitter API credits remaining: " +:+ shown |}) r0 =
            (match js_String credits with
             | Fulfilled _ => Fulfilled ()
             | Rejected _ => Rejected TypeError
             end, r')) as Hline.
  { intros r0. rewrite lift_bind.
    destruct (js_String credits) as [shown|e] eqn:Hshown; [by eexists|].
    apply js_String_TypeError in Hshown as ->. by eexists. }
  destruct credits; first [apply Hline | by eexists].
Qed.

(** [planQueries], case by case. *)
Lemma planQueries_run JSON_parse env state r :
  ∃ r',
    Stage.planQueries JSON_parse env state r =
      (match js_String (Stage.getCredits env) with
       | Rejected _ => Rejected TypeError
       | Fulfilled _ =>
           match llm_invoke env PlanLlm with
           | Rejected err => Rejected err
           | Fulfilled reply =>
               let queries :=
                 match Stage.parse_reply JSON_parse reply with
                 | Fulfilled plan => plan
                 | Rejected _ => fallbackQueries (idea state)
                 end in
               if plan_prints queries then Fulfilled [SetQueries queries]
               else Rejected TypeError
           end
       end, r').
Proof.
  unfold Stage.planQueries. cbv zeta. rewrite !emit_bind.
  set (r0 := push_event _ (push_event _ r)).
  assert (∀ r1, ∃ r',
            (reply ← lift (llm_invoke env PlanLlm);
             queries ← try_catch (lift (Stage.parse_reply JSON_parse reply))
                         (λ _, mret (fallbackQueries (idea state)));
             emit {| type := "queries"; msg := "  ✓ 7 search queries generated:" |};;
             entries ← lift (Object_entries queries);
             for_each Stage.query_line entries;;
             Stage.startPrefetch env (idea state);;
             mret [SetQueries queries]) r1
            = (match llm_invoke env PlanLlm with
               | Rejected err => Rejected err
               | Fulfilled reply =>
                   let queries :=
                     match Stage.parse_reply JSON_parse reply with
                     | Fulfilled plan => plan
                     | Rejected _ => fallbackQueries (idea state)
                     end in
                   if plan_prints queries then Fulfilled [SetQueries queries]
                   else Rejected TypeError
               end, r')) as Hrest.
  { intros r1. rewrite lift_bind. destruct (llm_invoke env PlanLlm) as [reply|err];
      [|by eexists].
    rewrite try_catch_lift_bind. cbv zeta.
    destruct (Stage.parse_reply JSON_parse reply) as [plan|e].
    - apply planQueries_tail.
    - rewrite mret_bind. apply planQueries_tail. }
  rewrite bind_run.
  destruct (report_credits_run (Stage.getCredits env) r0) as [r1 ->].
  destruct (js_String (Stage.getCredits env)); [apply Hrest | by eexists].
Qed.

(** C8 (as amended).  When the planning model replies with a text (and the
    stage could print the credits before it asked), the planning stage
    parses the span of the text from its first opening brace to its last
    closing brace (the whole text when there is no such span); the query
    plan is the parsed value, and it is the fallback plan, derived from the
    idea alone, when the parser rejects that span, or yields [null], or
    yields a value with an entry that has no string form. *)
Theorem planning_parses_greedy_span JSON_parse env state r (text : string) :
  llm_invoke env PlanLlm = Fulfilled (VStr text) →
  is_rejected (js_String (Stage.getCredits env)) = false →
  ∃ r',
    plan_queries_node JSON_parse env state r =
      (Fulfilled
         [SetQueries
            match JSON_parse (default text (match_braces text)) with
            | Some plan => if plan_prints plan then plan else fallbackQueries (idea state)
            | None => fallbackQueries (idea state)
            end], r') ∧
    (∀ plan, nullish plan = true → plan_prints plan = false).
Proof.
  intros Hllm Hcredits. unfold plan_queries_node. rewrite wrapNode_run.
  destruct (planQueries_run JSON_parse env state r) as [r' ->].
  rewrite Hllm. destruct (js_String (Stage.getCredits env)); [|done].
  cbn [Stage.parse_reply]. cbv zeta.
  assert (∀ plan, nullish plan = true → plan_prints plan = false) as Hnull.
  { intros plan Hplan. by destruct plan. }
  destruct (JSON_parse (default text (match_braces text))) as [plan|].
  - destruct (plan_prints plan); by eexists.
  - rewrite fallbackQueries_prints. by eexists.
Qed.

Lemma planning_parses_greedy_span_witness :
  llm_invoke chatty PlanLlm = Fulfilled (VStr "{} {}") ∧
  ∃ r',
    plan_queries_node parse_empty_object chatty (initial_state "pet food" "") fresh_run =
      (Fulfilled [SetQueries (fallbackQueries "pet food")], r').
Proof.
  split; [reflexivity|].
  destruct (planning_parses_greedy_span parse_empty_object chatty
              (initial_state "pet food" "") fresh_run "{} {}" eq_refl eq_refl)
    as (r' & Hrun & _).
  by exists r'.
Defined.

(** C8 (as stated) fails: on the reply [{} {}] the first balanced object is
    [{}], which parses, yet the stage parses the whole reply, which does
    not, and plans the fallback queries. *)
Lemma planning_not_first_balanced_object :
  first_balanced_object "{} {}" = Some "{}" ∧
  match_braces "{} {}" = Some "{} {}" ∧
  plan_from_first_balanced_object parse_empty_object "pet food" "{} {}" = VObj [] ∧
  (plan_queries_node parse_empty_object chatty (initial_state "pet food" "") fresh_run).1
    = Fulfilled [SetQueries (fallbackQueries "pet food")] ∧
  (plan_queries_node parse_empty_object chatty (initial_state "pet food" "") fresh_run).1
    ≠ Fulfilled [SetQueries
                   (plan_from_first_balanced_object parse_empty_object "pet food" "{} {}")].
Proof.
  split_and!; [reflexivity | reflexivity | reflexivity | by vm_compute | by vm_compute].
Qed.

(** ** The prefetch *)

Lemma startPrefetch_keeps env (idea : string) :
  keeps prefetch_inv (Stage.startPrefetch env idea).
Proof.
  intros r Hr. unfold Stage.startPrefetch. unfold prefetch_inv in Hr.
  destruct (tavilyPrefetchPromise r) as [handle|] eqn:Hhandle.
  - unfold prefetch_inv. cbn [snd]. by rewrite Hhandle.
  - match goal with |- context [Stage.runSingleTavilyResearch env idea ?r1] =>
      destruct (runSingleTavilyResearch_frame env idea r1) as (_ & Hl & _);
      destruct (Stage.runSingleTavilyResearch env idea r1) as [settled r2]
    end.
    unfold prefetch_inv. cbn in *. by rewrite Hl, Hr.
Qed.

Lemma report_credits_quiet credits : quiet (Stage.report_credits credits).
Proof. destruct credits; cbn [Stage.report_credits]; quiet_steps. Qed.

Lemma planQueries_keeps JSON_parse env state :
  keeps prefetch_inv (Stage.planQueries JSON_parse env state).
Proof.
  unfold Stage.planQueries.
  repeat first
    [ apply startPrefetch_keeps
    | apply keeps_bind; [|intros ?]
    | apply (quiet_keeps prefetch_inv);
        [ apply prefetch_inv_frame
        | solve [ apply report_credits_quiet
                | apply quiet_for_each; intros ?; apply query_line_quiet
                | quiet_steps ] ] ].
Qed.

Lemma joinPrefetch_launched env (idea : string) (r : Run) :
  prefetch_inv r → launched_once (Stage.joinPrefetch env idea r).2.
Proof.
  unfold prefetch_inv, launched_once, Stage.joinPrefetch.
  destruct (tavilyPrefetchPromise r) as [handle|]; [done|]. intros Hr.
  destruct (runSingleTavilyResearch_frame env idea r) as (_ & -> & _). by rewrite Hr.
Qed.

Lemma tavilyResearch_launched env state (r : Run) :
  prefetch_inv r → launched_once (Stage.tavilyResearch env state r).2.
Proof.
  intros Hr. unfold Stage.tavilyResearch. rewrite !emit_bind, bind_run.
  match goal with |- context [Stage.joinPrefetch env ?i ?r0] =>
    pose proof (joinPrefetch_launched env i r0) as Hjoin;
    destruct (Stage.joinPrefetch env i r0) as [[data|e] r1]
  end.
  - rewrite !emit_bind. cbn. apply Hjoin. by eapply prefetch_inv_frame.
  - apply Hjoin. by eapply prefetch_inv_frame.
Qed.

Lemma prefetch_inv_push ev r : prefetch_inv r → prefetch_inv (push_event ev r).
Proof. by apply prefetch_inv_frame. Qed.

Lemma launched_once_push ev r : launched_once r → launched_once (push_event ev r).
Proof. by apply launched_once_frame. Qed.

Lemma prefetch_inv_bound r : prefetch_inv r → launched r ≤ 1.
Proof. unfold prefetch_inv. destruct (tavilyPrefetchPromise r); lia. Qed.

Ltac advance I r1 Hr1 :=
  rewrite invoke_from_cons;
  match goal with
  | |- context [wrapNode ?name ?fn ?fb ?st ?r] =>
      assert (I (wrapNode name fn fb st r).2) as Hr1;
      [ | destruct (wrapNode name fn fb st r) as [[?|?] r1]; cbn [snd] in Hr1;
          [ | first [ by apply prefetch_inv_bound
                    | (unfold launched_once in Hr1; lia) ] ] ]
  end.

(** A run that completes executes the web research exactly once, prefetched
    by the planning stage or, failing that, run by the web stage itself; a
    run that a wrapper aborts has executed it at most once. *)
Lemma run_launches_once JSON_parse an env (idea description : string) (evs : list Event) :
  match invoke (graph JSON_parse an env) idea description
          {| emitted := evs; tavilyPrefetchPromise := None; launched := 0 |} with
  | (Fulfilled _, r') => launched r' = 1
  | (Rejected _, r') => launched r' ≤ 1
  end.
Proof.
  unfold invoke, graph, createResearchGraph.
  advance prefetch_inv r1 Hr1.
  { apply wrapNode_keeps; [apply prefetch_inv_push|]. by apply planQueries_keeps. }
  advance prefetch_inv r2 Hr2.
  { apply wrapNode_keeps; [apply prefetch_inv_push|].
    by apply (quiet_keeps _ _ prefetch_inv_frame (fetchTrends_quiet an env _)). }
  advance prefetch_inv r3 Hr3.
  { apply wrapNode_keeps; [apply prefetch_inv_push|].
    by apply (quiet_keeps _ _ prefetch_inv_frame (demandCheck_quiet an env _)). }
  advance prefetch_inv r4 Hr4.
  { apply wrapNode_keeps; [apply prefetch_inv_push|].
    by apply (quiet_keeps _ _ prefetch_inv_frame (adopterSearch_quiet an env _)). }
  advance prefetch_inv r5 Hr5.
  { apply wrapNode_keeps; [apply prefetch_inv_push|].
    by apply (quiet_keeps _ _ prefetch_inv_frame (funderSearch_quiet an env _)). }
  advance prefetch_inv r6 Hr6.
  { apply wrapNode_keeps; [apply prefetch_inv_push|].
    by apply (quiet_keeps _ _ prefetch_inv_frame (communityResearch_quiet env _)). }
  advance launched_once r7 Hr7.
  { apply wrapNode_keeps; [apply launched_once_push|]. by apply tavilyResearch_launched. }
  advance launched_once r8 Hr8.
  { apply wrapNode_keeps; [apply launched_once_push|].
    by apply (quiet_keeps _ _ launched_once_frame (geminiSynthesis_quiet JSON_parse an env _)). }
  exact Hr8.
Qed.

(** C9.  A start of the prefetch launches the web research at most once and
    leaves a handle; a further start attempt changes nothing (no launch, no
    event); joining the handle returns the outcome it holds and changes
    nothing, so a second join returns the same outcome, again without a
    launch.  A run of the graph that completes has executed the web research
    exactly once, and a run that a wrapper aborts at most once. *)
Theorem prefetch_starts_once_and_joins_idempotently JSON_parse an env
    (idea description : string) (r : Run) (evs : list Event) :
  let started := (Stage.startPrefetch env idea r).2 in
  launched started ≤ S (launched r) ∧
  (∃ handle,
     tavilyPrefetchPromise started = Some handle ∧
     Stage.startPrefetch env idea started = (Fulfilled (), started) ∧
     let '(first, joined) := Stage.joinPrefetch env idea started in
     let '(second, rejoined) := Stage.joinPrefetch env idea joined in
     first = handle ∧ second = first ∧ joined = started ∧ rejoined = started) ∧
  match invoke (graph JSON_parse an env) idea description
          {| emitted := evs; tavilyPrefetchPromise := None; launched := 0 |} with
  | (Fulfilled _, r') => launched r' = 1
  | (Rejected _, r') => launched r' ≤ 1
  end.
Proof.
  split_and!; [| |apply run_launches_once].
  - unfold Stage.startPrefetch. destruct (tavilyPrefetchPromise r); cbn [snd]; [lia|].
    match goal with |- context [Stage.runSingleTavilyResearch env idea ?r1] =>
      destruct (runSingleTavilyResearch_frame env idea r1) as (_ & Hl & _);
      destruct (Stage.runSingleTavilyResearch env idea r1) as [settled r2]
    end.
    cbn in *. lia.
  - assert (∃ handle, tavilyPrefetchPromise (Stage.startPrefetch env idea r).2 = Some handle)
      as [handle Hhandle].
    { unfold Stage.startPrefetch. destruct (tavilyPrefetchPromise r) eqn:E; cbn [snd].
      - by eexists.
      - destruct (Stage.runSingleTavilyResearch env idea _). by eexists. }
    exists handle. split; [done|].
    unfold Stage.startPrefetch at 1, Stage.joinPrefetch. rewrite Hhandle.
    split; [done|]. by rewrite Hhandle.
Qed.

(** * Further properties *)

(** ** The rate limiter under load *)

(** X1.  A burst of [n] calls of [throttle] made at the same instant [now]
    is released one call every 5600 ms, starting at [now] or at the reserved
    slot, whichever is later: the k-th call of the burst (from 0) at
    [max now _nextSlot + 5600 k]. *)
Theorem throttle_burst_schedule (n : nat) (now _nextSlot : Z) :
  RateLimiter.releases (replicate n now) _nextSlot =
    (λ k : nat, (Z.max now _nextSlot + 5600 * Z.of_nat k)%Z) <$> seq 0 n.
Proof.
  revert _nextSlot. induction n as [|n IH]; intros slot; [done|].
  cbn [replicate]. rewrite releases_cons, IH. cbn [seq fmap list_fmap]. f_equal; [lia|].
  rewrite <-fmap_S_seq, <-list_fmap_compose. apply list_fmap_ext.
  intros _ k _. simpl. lia.
Qed.

Lemma releases_not_early (nows : list Z) (slot : Z) :
  Forall2 (λ now release, (now ≤ release)%Z) nows (RateLimiter.releases nows slot).
Proof.
  revert slot. induction nows as [|now rest IH]; intros slot; [constructor|].
  rewrite releases_cons. constructor; [lia|apply IH].
Qed.

Lemma releases_step (nows : list Z) (slot : Z) (i : nat) (now previous : Z) :
  nows !! S i = Some now →
  RateLimiter.releases nows slot !! i = Some previous →
  RateLimiter.releases nows slot !! S i = Some (Z.max now (previous + 5600)).
Proof.
  revert slot i. induction nows as [|first rest IH]; intros slot i Hnow Hprev; [done|].
  rewrite releases_cons in Hprev |- *. cbn [lookup list_lookup] in Hnow |- *.
  destruct i as [|i].
  - cbn [lookup list_lookup] in Hprev. injection Hprev as <-.
    destruct rest as [|second rest]; [done|]. cbn [lookup list_lookup] in Hnow.
    injection Hnow as ->. rewrite releases_cons. done.
  - cbn [lookup list_lookup] in Hprev. by apply IH.
Qed.

(** X2.  No call of [throttle] is released before it is made, and a call is
    held back only as far as the spacing requires: it is released at the
    later of its own instant and 5600 ms after the release before it, so a
    call made at least 5600 ms after the previous release does not wait. *)
Theorem throttle_waits_only_for_spacing (nows : list Z) (_nextSlot : Z)
    (i : nat) (now previous : Z) :
  nows !! S i = Some now →
  RateLimiter.releases nows _nextSlot !! i = Some previous →
  Forall2 (λ called release, (called ≤ release)%Z)
          nows (RateLimiter.releases nows _nextSlot) ∧
  RateLimiter.releases nows _nextSlot !! S i = Some (Z.max now (previous + 5600)) ∧
  ((previous + 5600 ≤ now)%Z → RateLimiter.releases nows _nextSlot !! S i = Some now).
Proof.
  intros Hnow Hprev. split; [apply releases_not_early|].
  pose proof (releases_step nows _nextSlot i now previous Hnow Hprev) as Hstep.
  split; [done|]. intros Hidle. rewrite Hstep. f_equal. lia.
Qed.

Lemma throttle_waits_only_for_spacing_witness :
  RateLimiter.releases [0; 100; 9000]%Z 0 !! 2 = Some 11200%Z.
Proof.
  destruct (throttle_waits_only_for_spacing [0; 100; 9000]%Z 0%Z 1 9000%Z 5600%Z
              eq_refl eq_refl) as (_ & Hstep & _).
  exact Hstep.
Defined.

(** ** The extraction of a JSON object *)

Lemma from_first_open_split (s t : string) :
  from_first_open s = Some t →
  ∃ pre rest, s = pre +:+ t ∧ t = String open_brace rest ∧
              includes (String open_brace EmptyString) pre = false.
Proof.
  revert t. induction s as [|c s IH]; intros t H; [done|]. simpl in H.
  destruct (Ascii.eqb_spec c open_brace) as [->|Hc].
  - injection H as <-. by exists EmptyString, s.
  - destruct (IH t H) as (pre & rest & -> & -> & Hpre).
    exists (String c pre), rest. split_and!; [done..|].
    cbn [includes String.prefix]. rewrite Hpre.
    destruct (Ascii.ascii_dec open_brace c) as [<-|_]; [done|]. by destruct pre.
Qed.

Lemma upto_last_close_split (s p : string) :
  upto_last_close s = Some p →
  ∃ body post, s = p +:+ post ∧ p = body +:+ String close_brace EmptyString ∧
               includes (String close_brace EmptyString) post = false.
Proof.
  revert p. induction s as [|c s IH]; intros p H; [done|]. simpl in H.
  destruct (upto_last_close s) as [q|] eqn:Hq.
  - injection H as <-. destruct (IH q eq_refl) as (body & post & -> & -> & Hpost).
    by exists (String c body), post.
  - destruct (Ascii.eqb_spec c close_brace) as [->|Hc]; [|done]. injection H as <-.
    exists EmptyString, s. split_and!; [done..|].
    clear IH. induction s as [|d s IHs]; [done|]. simpl in Hq.
    destruct (upto_last_close s) as [q|]; [done|].
    destruct (Ascii.eqb_spec d close_brace) as [->|Hd]; [done|].
    cbn [includes String.prefix]. rewrite IHs by done.
    destruct (Ascii.ascii_dec close_brace d) as [<-|_]; [done|]. by destruct s.
Qed.

(** X3.  When the regular expression of the stages matches a reply, the
    match starts with the first opening brace of the reply and ends with its
    last closing brace: the reply is the match between a part free of
    opening braces and a part free of closing braces. *)
Theorem match_braces_spans_from_first_to_last (text m : string) :
  match_braces text = Some m →
  ∃ pre body post,
    text = pre +:+ m +:+ post ∧
    m = String open_brace body ∧
    (∃ inner, m = inner +:+ String close_brace EmptyString) ∧
    includes (String open_brace EmptyString) pre = false ∧
    includes (String close_brace EmptyString) post = false.
Proof.
  unfold match_braces. intros H.
  destruct (from_first_open text) as [t|] eqn:Ht; [|done]. cbn in H.
  destruct (from_first_open_split _ _ Ht) as (pre & rest & -> & -> & Hpre).
  destruct (upto_last_close_split _ _ H) as (inner & post & Hsplit & -> & Hpost).
  destruct inner as [|c inner].
  - cbn in Hsplit. injection Hsplit as Hc _. by destruct (Ascii.eqb_spec open_brace close_brace).
  - cbn in Hsplit. injection Hsplit as <- ->.
    exists pre, (inner +:+ String close_brace EmptyString), post.
    split_and!; [done|done| |done|done]. by exists (String open_brace inner).
Qed.

Lemma match_braces_spans_from_first_to_last_witness :
  ∃ pre body post,
    "Sure: {a} or {b}." = pre +:+ "{a} or {b}" +:+ post ∧
    "{a} or {b}" = String open_brace body ∧
    (∃ inner, "{a} or {b}" = inner +:+ String close_brace EmptyString) ∧
    includes (String open_brace EmptyString) pre = false ∧
    includes (String close_brace EmptyString) post = false.
Proof.
  exact (match_braces_spans_from_first_to_last "Sure: {a} or {b}." "{a} or {b}" eq_refl).
Defined.

Lemma includes_char_cons (c d : Ascii.ascii) (s : string) :
  includes (String c EmptyString) (String d s) = false →
  c ≠ d ∧ includes (String c EmptyString) s = false.
Proof.
  cbn [includes String.prefix].
  destruct (Ascii.ascii_dec c d) as [->|Hne].
  - by destruct s.
  - intros H. split; [done|]. by destruct (includes (String c EmptyString) s).
Qed.

Lemma from_first_open_skip (pre rest : string) :
  includes (String open_brace EmptyString) pre = false →
  from_first_open (pre +:+ String open_brace rest) = Some (String open_brace rest).
Proof.
  induction pre as [|c pre IH]; intros Hpre.
  - reflexivity.
  - apply includes_char_cons in Hpre as [Hc Hpre].
    change (from_first_open (String c pre +:+ String open_brace rest)) with
      (if Ascii.eqb c open_brace
       then Some (String c (pre +:+ String open_brace rest))
       else from_first_open (pre +:+ String open_brace rest)).
    destruct (Ascii.eqb_spec c open_brace) as [->|_]; [done|]. by apply IH.
Qed.

Lemma upto_last_close_none (post : string) :
  includes (String close_brace EmptyString) post = false →
  upto_last_close post = None.
Proof.
  induction post as [|c post IH]; intros Hpost; [done|].
  apply includes_char_cons in Hpost as [Hc Hpost].
  change (upto_last_close (String c post)) with
    (match upto_last_close post with
     | Some p => Some (String c p)
     | None => if Ascii.eqb c close_brace then Some (String c EmptyString) else None
     end).
  rewrite IH by done.
  by destruct (Ascii.eqb_spec c close_brace) as [->|_].
Qed.

Lemma upto_last_close_keep (inner post : string) :
  includes (String close_brace EmptyString) post = false →
  upto_last_close (inner +:+ String close_brace post)
    = Some (inner +:+ String close_brace EmptyString).
Proof.
  intros Hpost. induction inner as [|c inner IH].
  - change (upto_last_close (EmptyString +:+ String close_brace post)) with
      (match upto_last_close post with
       | Some p => Some (String close_brace p)
       | None => if Ascii.eqb close_brace close_brace
                 then Some (String close_brace EmptyString) else None
       end).
    by rewrite upto_last_close_none.
  - change (upto_last_close (String c inner +:+ String close_brace post)) with
      (match upto_last_close (inner +:+ String close_brace post) with
       | Some p => Some (String c p)
       | None => if Ascii.eqb c close_brace then Some (String c EmptyString) else None
       end).
    by rewrite IH.
Qed.

Lemma balanced_prefix_cons (depth : nat) (c : Ascii.ascii) (s : string) :
  balanced_prefix depth (String c s) =
    if Ascii.eqb c open_brace then String c <$> balanced_prefix (S depth) s
    else if Ascii.eqb c close_brace then
      match depth with
      | O => None
      | S O => Some (String c EmptyString)
      | S d => String c <$> balanced_prefix d s
      end
    else String c <$> balanced_prefix depth s.
Proof. reflexivity. Qed.

Lemma fmap_String_Some (c : Ascii.ascii) (x : option string) (o : string) :
  String c <$> x = Some (String c o) → x = Some o.
Proof. destruct x as [q|]; [|done]. by intros [= ->]. Qed.

Lemma balanced_prefix_extend (depth : nat) (o post : string) :
  balanced_prefix depth o = Some o → balanced_prefix depth (o +:+ post) = Some o.
Proof.
  revert depth. induction o as [|c o IH]; intros depth H; [done|].
  change (String c o +:+ post) with (String c (o +:+ post)).
  rewrite balanced_prefix_cons in H |- *.
  destruct (Ascii.eqb c open_brace).
  - apply fmap_String_Some in H. by rewrite (IH _ H).
  - destruct (Ascii.eqb c close_brace).
    + destruct depth as [|[|depth]]; [done| |].
      * by injection H as <-.
      * apply fmap_String_Some in H. by rewrite (IH _ H).
    + apply fmap_String_Some in H. by rewrite (IH _ H).
Qed.

Lemma balanced_prefix_closes (depth : nat) (o : string) :
  balanced_prefix depth o = Some o →
  ∃ inner, o = inner +:+ String close_brace EmptyString.
Proof.
  revert depth. induction o as [|c o IH]; intros depth H; [done|].
  rewrite balanced_prefix_cons in H.
  assert (∀ d, balanced_prefix d o = Some o →
               ∃ inner, String c o = inner +:+ String close_brace EmptyString) as Hrec.
  { intros d Hd. destruct (IH d Hd) as [inner ->]. by exists (String c inner). }
  destruct (Ascii.eqb c open_brace).
  - apply fmap_String_Some in H. by eapply Hrec.
  - destruct (Ascii.eqb_spec c close_brace) as [->|_].
    + destruct depth as [|[|depth]]; [done| |].
      * injection H as <-. by exists EmptyString.
      * apply fmap_String_Some in H. by eapply Hrec.
    + apply fmap_String_Some in H. by eapply Hrec.
Qed.

Lemma append_assoc_string (a b c : string) : (a +:+ b) +:+ c = a +:+ b +:+ c.
Proof.
  induction a as [|x a IH]; [done|].
  change (String x ((a +:+ b) +:+ c) = String x (a +:+ b +:+ c)). by f_equal.
Qed.

(** X4.  On a reply that holds a single balanced object, with no opening
    brace before it and no closing brace after it, the greedy match of the
    stages and the first balanced object are the same text, the object
    itself. *)
Theorem single_object_is_extracted (pre body post : string) :
  includes (String open_brace EmptyString) pre = false →
  balanced_prefix 0 (String open_brace body) = Some (String open_brace body) →
  includes (String close_brace EmptyString) post = false →
  match_braces (pre +:+ String open_brace body +:+ post) = Some (String open_brace body) ∧
  first_balanced_object (pre +:+ String open_brace body +:+ post)
    = Some (String open_brace body).
Proof.
  intros Hpre Hbalanced Hpost. unfold match_braces, first_balanced_object.
  change (String open_brace body +:+ post) with (String open_brace (body +:+ post)).
  rewrite from_first_open_skip by done. cbn [mbind option_bind].
  split.
  - destruct (balanced_prefix_closes _ _ Hbalanced) as [inner Hinner].
    change (String open_brace (body +:+ post)) with (String open_brace body +:+ post).
    rewrite Hinner, append_assoc_string. cbn [String.append].
    by apply upto_last_close_keep.
  - by apply (balanced_prefix_extend 0 (String open_brace body) post).
Qed.

Lemma single_object_is_extracted_witness :
  match_braces "Here you go: {a{b}c} - enjoy {"  = Some "{a{b}c}" ∧
  first_balanced_object "Here you go: {a{b}c} - enjoy {" = Some "{a{b}c}".
Proof.
  exact (single_object_is_extracted "Here you go: " "a{b}c}" " - enjoy {"
           eq_refl eq_refl eq_refl).
Defined.

(** ** The query plan and the prefetch *)

(** X5.  The planning node never returns a [null] plan: when it returns,
    its plan is the parsed reply or the fallback plan, and every entry of it
    has a string form.  It returns unless the planning call rejected with a
    value the wrapper cannot describe. *)
Theorem plan_is_never_null JSON_parse env state r :
  match plan_queries_node JSON_parse env state r with
  | (Fulfilled patch, _) =>
      ∃ plan, patch = [SetQueries plan] ∧ nullish plan = false ∧ plan_prints plan = true
  | (Rejected _, _) =>
      ∃ err, llm_invoke env PlanLlm = Rejected err ∧ describable err = false
  end.
Proof.
  unfold plan_queries_node. rewrite wrapNode_run.
  destruct (planQueries_run JSON_parse env state r) as [r' ->].
  assert (∃ plan, [SetQueries (fallbackQueries (idea state))] = [SetQueries plan] ∧
                  nullish plan = false ∧ plan_prints plan = true) as Hfallback.
  { by eexists. }
  destruct (js_String (Stage.getCredits env)); [|exact Hfallback].
  destruct (llm_invoke env PlanLlm) as [reply|err].
  - cbv zeta. destruct (plan_prints _) eqn:Hprints; [|exact Hfallback].
    eexists. split; [done|]. split; [by apply plan_prints_not_null | done].
  - destruct (error_description err) eqn:Herr; [exact Hfallback|].
    exists err. split; [done|]. unfold describable. by rewrite Herr.
Qed.

Lemma starts_on_return_bind {A B} (m : M A) (f : A → M B) :
  quiet m → (∀ a, starts_on_return (f a)) → starts_on_return (m ≫= f).
Proof.
  intros Hm Hf r Hr. rewrite bind_run. destruct (Hm r) as [Hp Hl].
  destruct (m r) as [[a|e] r1]; cbn [snd] in Hp, Hl.
  - specialize (Hf a r1). rewrite Hp in Hf. specialize (Hf Hr).
    destruct (f a r1) as [[b|e] r2]; by rewrite <-Hl.
  - by rewrite Hp, Hl.
Qed.

Lemma startPrefetch_starts {A} env (idea : string) (a : A) :
  starts_on_return (Stage.startPrefetch env idea;; mret a).
Proof.
  intros r Hr. rewrite bind_run. unfold Stage.startPrefetch. rewrite Hr.
  match goal with |- context [Stage.runSingleTavilyResearch env idea ?r1] =>
    destruct (runSingleTavilyResearch_frame env idea r1) as (_ & Hl & _);
    destruct (Stage.runSingleTavilyResearch env idea r1) as [settled r2]
  end.
  cbn in *. by split; [eexists|].
Qed.

(** X6.  In a run in which the prefetch has not been started, [planQueries]
    starts it exactly when it returns: if the planning call throws, or the
    plan has no entries to list ([null]) or an entry without a string form,
    the stage throws with the web research neither launched nor promised,
    and the web stage will run it itself. *)
Theorem planQueries_starts_prefetch_iff_it_returns JSON_parse env state r :
  tavilyPrefetchPromise r = None →
  match Stage.planQueries JSON_parse env state r with
  | (Fulfilled _, r') =>
      is_Some (tavilyPrefetchPromise r') ∧ launched r' = S (launched r)
  | (Rejected _, r') =>
      tavilyPrefetchPromise r' = None ∧ launched r' = launched r
  end.
Proof.
  revert r. change (starts_on_return (Stage.planQueries JSON_parse env state)).
  unfold Stage.planQueries.
  repeat first
    [ apply startPrefetch_starts
    | apply starts_on_return_bind;
      [ solve [ apply report_credits_quiet
              | apply quiet_for_each; intros ?; apply query_line_quiet
              | quiet_steps ]
      | intros ? ] ].
Qed.

Lemma planQueries_starts_prefetch_iff_it_returns_witness :
  tavilyPrefetchPromise fresh_run = None ∧
  is_rejected (Stage.planQueries parse_empty_object chatty
                 (initial_state "pet food" "") fresh_run).1 = false ∧
  match Stage.planQueries parse_empty_object chatty (initial_state "pet food" "") fresh_run with
  | (Fulfilled _, r') =>
      is_Some (tavilyPrefetchPromise r') ∧ launched r' = S (launched fresh_run)
  | (Rejected _, r') =>
      tavilyPrefetchPromise r' = None ∧ launched r' = launched fresh_run
  end.
Proof.
  split; [reflexivity|]. split; [by vm_compute|].
  exact (planQueries_starts_prefetch_iff_it_returns parse_empty_object chatty
           (initial_state "pet food" "") fresh_run eq_refl).
Defined.

(** ** The tiers of the synthesis *)

Lemma try_catch_returned {A B} (body : M A) (handler : jsval → M A) (f : A → M B)
    (r r1 : Run) (a : A) :
  body r = (Fulfilled a, r1) → (try_catch body handler ≫= f) r = f a r1.
Proof. intros H. rewrite bind_run. unfold try_catch. by rewrite H. Qed.

Lemma try_catch_threw {A B} (body : M A) (handler : jsval → M A) (f : A → M B)
    (r r1 : Run) (e : jsval) :
  body r = (Rejected e, r1) → (try_catch body handler ≫= f) r = (handler e ≫= f) r1.
Proof. intros H. rewrite !bind_run. unfold try_catch. by rewrite H. Qed.

Lemma shout_TypeError (v err : jsval) : shout v = Rejected err → err = TypeError.
Proof. destruct v; cbn; try discriminate; by intros [= <-]. Qed.

(** What follows the choice of the verdict in [geminiSynthesis]. *)
Lemma synthesis_tail (v : jsval) (r : Run) :
  ∃ r',
    (emit double_divider;;
     score ← lift (get v "score");
     shown ← lift (js_String score);
     recommendation ← lift (shout (opt_get v "recommendation"));
     emit {| type := "verdict";
             msg := "  🏁 COMPLETE — Score: " +:+ shown +:+ "/100 — " +:+ recommendation |};;
     emit double_divider;;
     mret [SetVerdict v]) r
    = (if printable v then Fulfilled [SetVerdict v] else Rejected TypeError, r').
Proof.
  rewrite emit_bind, lift_bind. unfold printable, get.
  destruct (nullish v); cbn [negb andb]; [by eexists|].
  rewrite lift_bind.
  destruct (js_String (opt_get v "score")) as [shown|e] eqn:Hscore; cbn [is_rejected negb andb].
  - rewrite lift_bind.
    destruct (shout (opt_get v "recommendation")) as [loud|e] eqn:Hshout;
      cbn [is_rejected negb].
    + rewrite !emit_bind. by eexists.
    + apply shout_TypeError in Hshout as ->. by eexists.
  - apply js_String_TypeError in Hscore as ->. by eexists.
Qed.

(** The stage, once the text of the first model is there and parses. *)
Lemma geminiSynthesis_first_tier JSON_parse an env state r (text : string) (v : jsval) :
  synthesis_prompt an state = Returns () →
  gemini_text env = Fulfilled text →
  JSON_parse (default text (match_braces text)) = Some v →
  ∃ r',
    Stage.geminiSynthesis JSON_parse an env state r
      = (if printable v then Fulfilled [SetVerdict v] else Rejected TypeError, r').
Proof.
  intros Hprompt Htext Hparse. unfold Stage.geminiSynthesis.
  rewrite !emit_bind, lift_bind, Hprompt. cbn [outcome_of].
  erewrite try_catch_returned; [apply synthesis_tail|].
  rewrite lift_bind, Htext, emit_bind. unfold Stage.parse_reply. by rewrite Hparse.
Qed.

(** X7.  When the prompt is built and the text of the first model holds a
    value that parses, that value decides the verdict and the second model
    is never consulted: the verdict is the parsed value when the stage can
    print it, and the fallback verdict when it cannot (the value is [null],
    its [score] has no string form, or its [recommendation] is neither
    absent nor a string), whatever the second model would have answered. *)
Theorem first_model_answer_decides JSON_parse an env state r (text : string) (v : jsval) :
  synthesis_prompt an state = Returns () →
  gemini_text env = Fulfilled text →
  JSON_parse (default text (match_braces text)) = Some v →
  ∃ r',
    synthesis_node JSON_parse an env state r
      = (Fulfilled [SetVerdict (if printable v then v else fallbackVerdict state)], r').
Proof.
  intros Hprompt Htext Hparse. unfold synthesis_node. rewrite wrapNode_run.
  destruct (geminiSynthesis_first_tier JSON_parse an env state r text v Hprompt Htext Hparse)
    as [r1 ->].
  destruct (printable v); by eexists.
Qed.

Lemma first_model_answer_decides_witness :
  ∃ r',
    synthesis_node parse_empty_object silent terse (initial_state "pet food" "") fresh_run
      = (Fulfilled [SetVerdict (VObj [])], r').
Proof.
  exact (first_model_answer_decides parse_empty_object silent terse
           (initial_state "pet food" "") fresh_run "{}" (VObj []) eq_refl eq_refl eq_refl).
Defined.

(** The stage, once the first tier has failed in a way it can report. *)
Lemma geminiSynthesis_second_tier JSON_parse an env state r :
  synthesis_prompt an state = Returns () →
  reaches_second_tier JSON_parse env = true →
  ∃ r',
    Stage.geminiSynthesis JSON_parse an env state r
      = (let chosen :=
           match llm_invoke env VerdictLlm with
           | Fulfilled reply =>
               match Stage.parse_reply JSON_parse reply with
               | Fulfilled v => v
               | Rejected _ => fallbackVerdict state
               end
           | Rejected _ => fallbackVerdict state
           end in
         if printable chosen then Fulfilled [SetVerdict chosen] else Rejected TypeError, r').
Proof.
  intros Hprompt Hreach. unfold Stage.geminiSynthesis.
  rewrite !emit_bind, lift_bind, Hprompt. cbn [outcome_of].
  set (r3 := push_event _ (push_event _ (push_event _ r))).
  assert (∃ err m shown r4,
            (text ← lift (gemini_text env);
             emit {| type := "info";
                     msg := "  🟣 [GEMINI] Response: " +:+ show_nat (js_length text)
                              +:+ " chars" |};;
             lift (Stage.parse_reply JSON_parse (VStr text))) r3
            = (Rejected err, r4) ∧
            get err "message" = Fulfilled m ∧ slice_text 60 m = Fulfilled shown)
    as (err & m & shown & r4 & Hbody & Hm & Hshown).
  { unfold reaches_second_tier in Hreach. rewrite lift_bind.
    destruct (gemini_text env) as [text|err].
    - rewrite emit_bind. unfold Stage.parse_reply.
      destruct (JSON_parse (default text (match_braces text))); [done|].
      by eexists _, _, _, _.
    - destruct (get err "message") as [m|] eqn:Hm; [|done].
      destruct (slice_text 60 m) as [shown|] eqn:Hshown; [|done].
      by eexists _, _, _, _. }
  erewrite try_catch_threw by exact Hbody.
  rewrite bind_run, lift_bind, Hm, lift_bind, Hshown, emit_bind.
  set (r5 := push_event _ r4). cbv zeta.
  destruct (llm_invoke env VerdictLlm) as [reply|e1].
  - unfold try_catch at 1. rewrite lift_bind.
    destruct (Stage.parse_reply JSON_parse reply) as [v|e2]; apply synthesis_tail.
  - unfold try_catch at 1. rewrite lift_bind. apply synthesis_tail.
Qed.

(** X8.  When the first model throws a value whose [message] the stage can
    print, or its text does not parse, the second model decides: the verdict
    is the value parsed from its reply when the stage can print it, and the
    fallback verdict when the second model throws, its reply does not parse,
    or the parsed value cannot be printed. *)
Theorem second_model_answer_decides JSON_parse an env state r :
  synthesis_prompt an state = Returns () →
  reaches_second_tier JSON_parse env = true →
  ∃ r',
    synthesis_node JSON_parse an env state r
      = (Fulfilled
           [SetVerdict
              match llm_invoke env VerdictLlm with
              | Fulfilled reply =>
                  match Stage.parse_reply JSON_parse reply with
                  | Fulfilled v => if printable v then v else fallbackVerdict state
                  | Rejected _ => fallbackVerdict state
                  end
              | Rejected _ => fallbackVerdict state
              end], r').
Proof.
  intros Hprompt Hreach. unfold synthesis_node. rewrite wrapNode_run.
  destruct (geminiSynthesis_second_tier JSON_parse an env state r Hprompt Hreach) as [r1 ->].
  cbv zeta.
  destruct (llm_invoke env VerdictLlm) as [reply|e1];
    [destruct (Stage.parse_reply JSON_parse reply) as [v|e2]|];
    destruct (printable _); by eexists.
Qed.

Lemma second_model_answer_decides_witness :
  ∃ r',
    synthesis_node parse_empty_object silent relayed (initial_state "pet food" "") fresh_run
      = (Fulfilled [SetVerdict (VObj [])], r').
Proof.
  exact (second_model_answer_decides parse_empty_object silent relayed
           (initial_state "pet food" "") fresh_run eq_refl eq_refl).
Defined.



(** ** The event stream *)

Lemma appends_ret {A} (ok : Event → Prop) (a : A) : appends ok (mret a).
Proof. intros r. exists []. by rewrite app_nil_r. Qed.

Lemma appends_lift {A} (ok : Event → Prop) (o : Outcome A) : appends ok (lift o).
Proof. intros r. exists []. by rewrite app_nil_r. Qed.

Lemma appends_emit (ok : Event → Prop) (ev : Event) : ok ev → appends ok (emit ev).
Proof. intros Hev r. exists [ev]. split; [done|]. by constructor. Qed.

Lemma appends_bind {A B} (ok : Event → Prop) (m : M A) (f : A → M B) :
  appends ok m → (∀ a, appends ok (f a)) → appends ok (m ≫= f).
Proof.
  intros Hm Hf r. rewrite bind_run. destruct (Hm r) as (new & Hnew & Hok).
  destruct (m r) as [[a|e] r1]; cbn [snd] in Hnew.
  - destruct (Hf a r1) as (more & Hmore & Hok').
    exists (new ++ more). rewrite Hmore, Hnew, app_assoc. split; [done|].
    by apply Forall_app.
  - by exists new.
Qed.

Lemma appends_try_catch {A} (ok : Event → Prop) (body : M A) (handler : jsval → M A) :
  appends ok body → (∀ e, appends ok (handler e)) → appends ok (try_catch body handler).
Proof.
  intros Hbody Hhandler r. unfold try_catch. destruct (Hbody r) as (new & Hnew & Hok).
  destruct (body r) as [[a|e] r1]; cbn [snd] in Hnew.
  - by exists new.
  - destruct (Hhandler e r1) as (more & Hmore & Hok').
    exists (new ++ more). rewrite Hmore, Hnew, app_assoc. split; [done|].
    by apply Forall_app.
Qed.

Lemma announces_bind {A B} (m : M A) (f : A → M B) :
  appends (λ ev, is_verdict_event ev = false) m →
  (∀ a, announces_verdict (f a)) → announces_verdict (m ≫= f).
Proof.
  intros Hm Hf r. rewrite bind_run. destruct (Hm r) as (new & Hnew & Hquiet).
  assert (verdict_events new = 0) as Hnone.
  { unfold verdict_events. clear Hnew.
    induction Hquiet as [|ev new Hev _ IH]; [done|]. cbn. by rewrite Hev. }
  destruct (m r) as [[a|e] r1]; cbn [snd] in Hnew.
  - destruct (Hf a r1) as (more & Hmore & Hcount).
    exists (new ++ more). rewrite Hmore, Hnew, app_assoc. split; [done|].
    unfold verdict_events in *. rewrite List.filter_app, length_app. lia.
  - by exists new.
Qed.

Ltac mute_steps :=
  repeat first
    [ apply appends_ret | apply appends_lift | by apply appends_emit
    | apply appends_try_catch; [|intros ?]
    | apply appends_bind; [|intros ?] ].

Lemma geminiSynthesis_announces JSON_parse an env state :
  announces_verdict (Stage.geminiSynthesis JSON_parse an env state).
Proof.
  unfold Stage.geminiSynthesis.
  do 9 (apply announces_bind; [mute_steps | intros ?]).
  intros r. rewrite !emit_bind. eexists [_; _]. split.
  - cbn. by rewrite <-app_assoc.
  - reflexivity.
Qed.

(** X11.  The synthesis node appends exactly one "verdict" event when the
    synthesis stage returns, and none when it throws: a run whose synthesis
    throws (on a [null] answer, say) ends with the fallback verdict in its
    state but announces no verdict in the stream. *)
Theorem verdict_is_announced_iff_synthesis_returns JSON_parse an env state r :
  ∃ new,
    emitted (synthesis_node JSON_parse an env state r).2 = emitted r ++ new ∧
    verdict_events new =
      if is_rejected (Stage.geminiSynthesis JSON_parse an env state r).1 then 0 else 1.
Proof.
  unfold synthesis_node. rewrite wrapNode_run.
  destruct (geminiSynthesis_announces JSON_parse an env state r) as (new & Hnew & Hcount).
  destruct (Stage.geminiSynthesis JSON_parse an env state r) as [[patch|err] r1];
    cbn [fst snd] in *.
  - by exists new.
  - destruct (error_description err) as [shown|e]; [|by exists new].
    exists (new ++ [warn_event "Synthesis" shown]). cbn. rewrite Hnew, app_assoc.
    split; [done|]. unfold verdict_events in *.
    rewrite List.filter_app, length_app, Hcount. reflexivity.
Qed.

(** ** Stages that absorb their own failures *)

Lemma communityResearch_quiet_stream env state :
  appends (λ ev, type ev ≠ "warn") (Stage.communityResearch env state).
Proof.
  unfold Stage.communityResearch. cbv zeta.
  repeat first
    [ apply appends_ret | by apply appends_emit
    | apply appends_bind; [|intros ?] ].
  destruct (0 <? _); by apply appends_emit.
Qed.

(** X12.  The community stage never throws: a rejected search counts as no
    tweets.  The stage keeps the first 8 tweets it received and counts them
    all; when the search is rejected its patch equals the fallback patch of
    the node, the fallback itself is never used, and no "warn" event is
    emitted. *)
Theorem communityResearch_absorbs_failure env state r :
  (Stage.communityResearch env state r).1 =
    Fulfilled [SetCommunityData
      match searchCommunityTweets env with
      | Fulfilled tweets =>
          VObj [("tweets", VArr (take 8 tweets));
                ("count", VNum (Z.of_nat (length tweets)))]
      | Rejected _ => fallbackCommunity
      end] ∧
  wrapNode "Community" (Stage.communityResearch env)
           (λ _, [SetCommunityData fallbackCommunity]) state r
    = Stage.communityResearch env state r ∧
  ∃ new,
    emitted (Stage.communityResearch env state r).2 = emitted r ++ new ∧
    Forall (λ ev, type ev ≠ "warn") new.
Proof.
  assert ((Stage.communityResearch env state r).1 =
            Fulfilled [SetCommunityData
              match searchCommunityTweets env with
              | Fulfilled tweets =>
                  VObj [("tweets", VArr (take 8 tweets));
                        ("count", VNum (Z.of_nat (length tweets)))]
              | Rejected _ => fallbackCommunity
              end]) as Hout.
  { unfold Stage.communityResearch. cbv zeta. rewrite !emit_bind.
    destruct (searchCommunityTweets env) as [tweets|e];
      destruct (0 <? _); rewrite !emit_bind; reflexivity. }
  split_and!; [exact Hout| |apply communityResearch_quiet_stream].
  rewrite wrapNode_run.
  destruct (Stage.communityResearch env state r) as [[patch|err] r1]; [done|].
  discriminate Hout.
Qed.

Lemma gather_failures (queries : list string) (acc : Gathered) (i : nat)
    (settled : list (Outcome (option TavilyResponse))) (run : Run) :
  Forall (λ envelope, is_rejected envelope = true ∧ reportable envelope = true) settled →
  ∃ run', gather queries acc i settled run = (Fulfilled acc, run').
Proof.
  intros Hall. revert i run.
  induction Hall as [|envelope settled [Hrej Hrep] _ IH]; intros i run; [by eexists|].
  cbn [gather]. destruct envelope as [value|reason]; [done|].
  cbn [visit reportable] in *. rewrite bind_run, lift_bind.
  destruct (reason_text reason) as [shown|]; [|done].
  rewrite emit_bind. apply IH.
Qed.

(** X13.  When every web search of a launch fails (it is rejected, or it
    has not settled when its 25 s timer fires) with a reason the research
    can print in its warning, the web research still resolves, to an object
    with no sources, an empty summary and a count of 0: the same object as
    the fallback patch of the web stage. *)
Theorem web_research_without_results env (idea : string) (r : Run) :
  (∀ i, task_fails (tvly_search env (launched r) i) = true) →
  (∀ i, reportable (race_timeout (tvly_search env (launched r) i)).2 = true) →
  ∃ r', Stage.runSingleTavilyResearch env idea r = (Fulfilled fallbackTavily, r').
Proof.
  intros Hfail Hreport. unfold Stage.runSingleTavilyResearch.
  set (settled := (gatherAll _).2).
  assert (Forall (λ o, is_rejected o = true ∧ reportable o = true) settled) as Hall.
  { unfold settled. rewrite gatherAll_envelopes_fmap. apply Forall_fmap, Forall_forall.
    intros t Ht. cbn.
    apply list_elem_of_lookup in Ht as [i Ht]. rewrite list_lookup_imap in Ht.
    destruct (searchQueries idea !! i); [|done]. injection Ht as <-.
    split; [rewrite race_timeout_rejected; apply Hfail | apply Hreport]. }
  rewrite bind_run.
  match goal with |- context [gather ?q ?acc ?i settled ?run] =>
    destruct (gather_failures q acc i settled run Hall) as [run' ->]
  end.
  rewrite emit_bind. by eexists.
Qed.

Lemma web_research_without_results_witness :
  (∀ i, task_fails (tvly_search offline (launched fresh_run) i) = true) ∧
  ∃ r', Stage.runSingleTavilyResearch offline "pet food" fresh_run = (Fulfilled fallbackTavily, r').
Proof.
  split; [done|].
  exact (web_research_without_results offline "pet food" fresh_run
           (λ _, eq_refl) (λ _, eq_refl)).
Defined.

(** ** The filters of [services/analyzer.js] *)

Lemma filter_sublist {A} (f : A → bool) (l : list A) : List.filter f l `sublist_of` l.
Proof.
  induction l as [|x l IH]; [done|]. cbn.
  destruct (f x); [by apply sublist_skip | by apply sublist_cons].
Qed.

Lemma filter_all {A} (f : A → bool) (l : list A) :
  Forall (λ x, f x = true) (List.filter f l).
Proof.
  induction l as [|x l IH]; [constructor|]. cbn.
  destruct (f x) eqn:Hx; [by constructor | done].
Qed.

Lemma filter_length_le {A} (f : A → bool) (l : list A) :
  length (List.filter f l) ≤ length l.
Proof. apply sublist_length, filter_sublist. Qed.

Lemma find_of_existsb {A} (f : A → bool) (l : list A) :
  existsb f l = true → ∃ x, List.find f l = Some x ∧ x ∈ l ∧ f x = true.
Proof.
  induction l as [|y l IH]; [done|]. cbn. destruct (f y) eqn:Hy.
  - intros _. exists y. split_and!; [done| |done]. by left.
  - cbn. intros H. destruct (IH H) as (x & Hfind & Hin & Hx).
    exists x. split_and!; [done| |done]. by right.
Qed.

Lemma filterAdopters_bound_aux (tweets : list Twitter.Tweet) :
  length (Analyzer.filterAdopters tweets) ≤ 10.
Proof. unfold Analyzer.filterAdopters. rewrite length_take. lia. Qed.

Lemma filterFunders_bound_aux (tweets : list Twitter.Tweet) :
  length (Analyzer.filterFunders tweets) ≤ 10.
Proof. unfold Analyzer.filterFunders. rewrite length_take. lia. Qed.

(** X15.  [filterAdopters] returns at most 10 adopters, in the order of
    their tweets; each comes from a tweet whose lower-cased text contains a
    pain signal, and the signal it reports is one of the list that does
    occur in that text. *)
Theorem filterAdopters_reports_pain (tweets : list Twitter.Tweet) :
  length (Analyzer.filterAdopters tweets) ≤ 10 ∧
  Analyzer.adopter_tweet <$> Analyzer.filterAdopters tweets
    `sublist_of` Twitter.text <$> tweets ∧
  Forall (λ a, Analyzer.painSignal a ∈ Analyzer.PAIN_SIGNALS ∧
               includes (Analyzer.painSignal a) (toLowerCase (Analyzer.adopter_tweet a)) = true)
         (Analyzer.filterAdopters tweets).
Proof.
  unfold Analyzer.filterAdopters. split_and!.
  - rewrite length_take. lia.
  - rewrite fmap_take, <-list_fmap_compose.
    etrans; [apply sublist_take|]. apply fmap_sublist, filter_sublist.
  - apply Forall_take, Forall_fmap. eapply Forall_impl; [apply filter_all|].
    intros t Ht. unfold Analyzer.has_pain in Ht.
    destruct (find_of_existsb _ _ Ht) as (s & Hfind & Hin & Hs).
    unfold compose. cbv beta.
    change (Analyzer.painSignal (Analyzer.to_adopter t)) with
      (default "" (List.find (λ s, includes s (toLowerCase (Twitter.text t)))
                             Analyzer.PAIN_SIGNALS)).
    change (Analyzer.adopter_tweet (Analyzer.to_adopter t)) with (Twitter.text t).
    by rewrite Hfind.
Qed.

(** X16.  [filterFunders] returns at most 10 entries, in the order of their
    tweets, and each comes from a tweet whose author's lower-cased bio
    contains an investor signal; a tweet without an author or without a bio
    never qualifies. *)
Theorem filterFunders_reads_bios (tweets : list Twitter.Tweet) :
  length (Analyzer.filterFunders tweets) ≤ 10 ∧
  Analyzer.funder_tweet <$> Analyzer.filterFunders tweets
    `sublist_of` Twitter.text <$> tweets ∧
  Forall (λ f, existsb (λ s, includes s (toLowerCase (Analyzer.funder_bio f)))
                       Analyzer.INVESTOR_SIGNALS = true ∧
               Analyzer.funder_bio f ≠ "")
         (Analyzer.filterFunders tweets).
Proof.
  unfold Analyzer.filterFunders. split_and!.
  - rewrite length_take. lia.
  - rewrite fmap_take, <-list_fmap_compose.
    etrans; [apply sublist_take|]. apply fmap_sublist, filter_sublist.
  - apply Forall_take, Forall_fmap. eapply Forall_impl; [apply filter_all|].
    intros t Ht. unfold compose. cbv beta.
    change (Analyzer.funder_bio (Analyzer.to_funder t)) with (Analyzer.bio_of t).
    split; [exact Ht|].
    intros Hbio. unfold Analyzer.has_investor_bio in Ht. by rewrite Hbio in Ht.
Qed.

Lemma tally_cons (label : Analyzer.Sentiment) (t : Twitter.Tweet) (tweets : list Twitter.Tweet) :
  Analyzer.tally Analyzer.positive (t :: tweets)
  + Analyzer.tally Analyzer.negative (t :: tweets)
  + Analyzer.tally Analyzer.neutral (t :: tweets)
  = S (Analyzer.tally Analyzer.positive tweets
       + Analyzer.tally Analyzer.negative tweets
       + Analyzer.tally Analyzer.neutral tweets).
Proof. unfold Analyzer.tally. cbn. destruct (Analyzer.sentiment_of t); cbn; lia. Qed.

(** X17.  [analyzeSentiment] labels every tweet, keeping the tweets and
    their order, and its three counters add up to the number of tweets;
    the shares it reports are those of the counters, against 1 when there
    is no tweet. *)
Theorem analyzeSentiment_partitions (percent : nat → nat → Z) (tweets : list Twitter.Tweet) :
  (Analyzer.scored (Analyzer.analyzeSentiment percent tweets)).*1 = tweets ∧
  Analyzer.tally Analyzer.positive tweets + Analyzer.tally Analyzer.negative tweets
    + Analyzer.tally Analyzer.neutral tweets = length tweets ∧
  Analyzer.positive_share (Analyzer.analyzeSentiment percent tweets)
    = percent (Analyzer.tally Analyzer.positive tweets) (Nat.max 1 (length tweets)) ∧
  Analyzer.negative_share (Analyzer.analyzeSentiment percent tweets)
    = percent (Analyzer.tally Analyzer.negative tweets) (Nat.max 1 (length tweets)) ∧
  Analyzer.neutral_share (Analyzer.analyzeSentiment percent tweets)
    = percent (Analyzer.tally Analyzer.neutral tweets) (Nat.max 1 (length tweets)).
Proof.
  split_and!.
  - cbn. rewrite <-list_fmap_compose. apply list_fmap_id.
  - induction tweets as [|t tweets IH]; [done|].
    rewrite (tally_cons Analyzer.neutral). cbn [length]. by rewrite IH.
  - by destruct tweets.
  - by destruct tweets.
  - by destruct tweets.
Qed.

(** ** Data shaping in the stages *)

Lemma first_items_length {A} (items : option (list A)) (count : nat) :
  length (Twitter.first_items items count) ≤ count.
Proof. unfold Twitter.first_items. rewrite length_take. lia. Qed.

Lemma settled_items_length {A} (res : Outcome (option (list A))) (count : nat) :
  length (Research.settled_items res count) ≤ count.
Proof. destruct res; [apply first_items_length | cbn; lia]. Qed.

(** X18.  The adopter data never hold more than 10 adopters, whatever the
    searches return: [filterAdopters] has already cut the list, so the cut
    to 12 of the stage never removes anything and [count] is the number of
    [users]; [allPainTweets] is at most 45. *)
Theorem adopterData_bounds (painRes recentPainRes : Outcome (option (list Twitter.Tweet)))
    (insights : jsval) :
  let data := Research.adopterData painRes recentPainRes insights in
  Research.users data =
    Analyzer.filterAdopters (Research.settled_items painRes 25
                             ++ Research.settled_items recentPainRes 20) ∧
  Research.adopter_count data = length (Research.users data) ∧
  Research.adopter_count data ≤ 10 ∧
  Research.allPainTweets data ≤ 45.
Proof.
  cbn. pose proof (settled_items_length painRes 25).
  pose proof (settled_items_length recentPainRes 20).
  assert (length (Analyzer.filterAdopters
                    (Research.settled_items painRes 25
                     ++ Research.settled_items recentPainRes 20)) ≤ 10) as Hten.
  { apply filterAdopters_bound_aux. }
  rewrite take_ge by lia. rewrite length_app. split_and!; [done|done|done|lia].
Qed.

Lemma unique_users_cons (seen : gset (option string)) (u : Twitter.User)
    (rest : list Twitter.User) :
  Research.unique_users seen (u :: rest) =
    if decide (Twitter.userName u ∈ seen) then Research.unique_users seen rest
    else u :: Research.unique_users ({[Twitter.userName u]} ∪ seen) rest.
Proof. cbn. by case_bool_decide; case_decide. Qed.

Lemma unique_users_sublist (seen : gset (option string)) (l : list Twitter.User) :
  Research.unique_users seen l `sublist_of` l.
Proof.
  revert seen. induction l as [|u rest IH]; intros seen; [done|].
  rewrite unique_users_cons. case_decide; [by apply sublist_cons | by apply sublist_skip].
Qed.

Lemma unique_users_fresh (seen : gset (option string)) (l : list Twitter.User) :
  Forall (λ u, Twitter.userName u ∉ seen) (Research.unique_users seen l).
Proof.
  revert seen. induction l as [|u rest IH]; intros seen; [constructor|].
  rewrite unique_users_cons. case_decide; [done|]. constructor; [done|].
  eapply Forall_impl; [apply IH|]. intros u' Hu'. set_solver.
Qed.

Lemma unique_users_NoDup (seen : gset (option string)) (l : list Twitter.User) :
  NoDup (Twitter.userName <$> Research.unique_users seen l).
Proof.
  revert seen. induction l as [|u rest IH]; intros seen; [constructor|].
  rewrite unique_users_cons. case_decide; [done|]. rewrite fmap_cons.
  constructor; [|done].
  intros (u' & Hname & Hin)%list_elem_of_fmap.
  pose proof (unique_users_fresh ({[Twitter.userName u]} ∪ seen) rest) as Hfresh.
  rewrite Forall_forall in Hfresh. specialize (Hfresh _ Hin). set_solver.
Qed.

Lemma unique_users_keeps_names (seen : gset (option string)) (l : list Twitter.User)
    (u : Twitter.User) :
  u ∈ l → Twitter.userName u ∉ seen →
  Twitter.userName u ∈ Twitter.userName <$> Research.unique_users seen l.
Proof.
  revert seen. induction l as [|v rest IH]; intros seen Hin Hfresh.
  - by apply elem_of_nil in Hin.
  - rewrite unique_users_cons. apply elem_of_cons in Hin as [->|Hin].
    + rewrite decide_False by done. rewrite fmap_cons. by left.
    + case_decide; [by apply IH|]. rewrite fmap_cons.
      destruct (decide (Twitter.userName u = Twitter.userName v)) as [->|Hne]; [by left|].
      right. apply IH; [done|]. set_solver.
Qed.

(** X19.  The investor profiles of the funder stage are users, in their
    order of arrival, whose bio contains an investor signal; no two of them
    have the same user name (at most one has none), and every user name
    among the users with such a bio is kept once. *)
Theorem funders_are_distinct_investors (investorUsers vcUsers : list Twitter.User) :
  Research.funders investorUsers vcUsers `sublist_of` investorUsers ++ vcUsers ∧
  Forall (λ u, Research.looks_like_investor u = true)
         (Research.funders investorUsers vcUsers) ∧
  NoDup (Twitter.userName <$> Research.funders investorUsers vcUsers) ∧
  Twitter.userName <$> List.filter Research.looks_like_investor (investorUsers ++ vcUsers)
    ⊆ Twitter.userName <$> Research.funders investorUsers vcUsers.
Proof.
  unfold Research.funders. split_and!.
  - etrans; [apply unique_users_sublist | apply filter_sublist].
  - apply Forall_forall. intros u Hu.
    pose proof (filter_all Research.looks_like_investor (investorUsers ++ vcUsers)) as Hall.
    rewrite Forall_forall in Hall. apply Hall.
    eapply elem_of_sublist; [exact Hu | apply unique_users_sublist].
  - apply unique_users_NoDup.
  - intros key (u & -> & Hin)%list_elem_of_fmap.
    apply unique_users_keeps_names; [done|set_solver].
Qed.

(** X20.  The funder data stay within fixed bounds whatever the searches
    return: at most 10 profile investors and 5 tweet investors are listed,
    and [count], which counts every distinct profile and every funder found
    in tweets, is at least the number of listed entries and at most 45. *)
Theorem funderData_bounds (investorRes vcRes : Outcome (option (list Twitter.User)))
    (funderTweetRes : Outcome (option (list Twitter.Tweet))) (insights : jsval) :
  let data := Research.funderData investorRes vcRes funderTweetRes insights in
  length (Research.profileInvestors data) ≤ 10 ∧
  length (Research.tweetInvestors data) ≤ 5 ∧
  length (Research.profileInvestors data) + length (Research.tweetInvestors data)
    ≤ Research.funder_count data ∧
  Research.funder_count data ≤ 45.
Proof.
  cbn. rewrite length_fmap, !length_take.
  pose proof (settled_items_length investorRes 20).
  pose proof (settled_items_length vcRes 15).
  pose proof (filterFunders_bound_aux (Research.settled_items funderTweetRes 20)).
  assert (length (Research.funders (Research.settled_items investorRes 20)
                                   (Research.settled_items vcRes 15)) ≤ 35) as Hfound.
  { unfold Research.funders.
    etrans; [apply sublist_length, unique_users_sublist|].
    etrans; [apply filter_length_le|]. rewrite length_app. lia. }
  lia.
Qed.

(** ** [auth.js] *)

(** X22.  [extractToken] returns what follows "Bearer " in the
    [Authorization] header, whatever it is, and looks at the [token] query
    parameter only when the header does not start with "Bearer ".  So a
    header that is exactly "Bearer " hides a token passed in the query, and
    [requireAuth] answers Unauthorized. *)
Theorem bearer_header_takes_precedence (verify : string → option jsval)
    (token : string) (query_token : option string) :
  Auth.extractToken (Some ("Bearer " +:+ token)) query_token = Some token ∧
  Auth.extractToken None query_token = Twitter.or_null query_token ∧
  Auth.requireAuth verify (Some "Bearer ") query_token = Auth.Unauthorized.
Proof.
  split_and!.
  - by destruct token.
  - by destruct query_token.
  - reflexivity.
Qed.

(** X23.  [requireAuth] lets a request through only with a non-empty token
    that [extractToken] found, that verifies, and whose payload has a truthy
    [sub]; the user id it attaches to the request is that [sub]. *)
Theorem requireAuth_needs_verified_subject (verify : string → option jsval)
    (authorization query_token : option string) (userId email name : jsval) :
  Auth.requireAuth verify authorization query_token = Auth.Next userId email name →
  ∃ token payload,
    Auth.extractToken authorization query_token = Some token ∧
    token ≠ "" ∧
    verify token = Some payload ∧
    userId = opt_get payload "sub" ∧
    truthy userId = true.
Proof.
  unfold Auth.requireAuth, Auth.decodeToken.
  destruct (Auth.extractToken authorization query_token) as [token|]; [|done].
  destruct (String.eqb_spec token ""); [done|].
  destruct (verify token) as [payload|] eqn:Hverify; cbn; [|done].
  destruct (truthy (opt_get payload "sub")) eqn:Hsub; [|done].
  intros [= <- _ _]. by exists token, payload.
Qed.

Lemma requireAuth_needs_verified_subject_witness :
  ∃ token payload,
    Auth.extractToken (Some "Bearer abc") None = Some token ∧
    token ≠ "" ∧
    (λ _, Some (VObj [("sub", VStr "u1")])) token = Some payload ∧
    VStr "u1" = opt_get payload "sub" ∧
    truthy (VStr "u1") = true.
Proof.
  exact (requireAuth_needs_verified_subject (λ _, Some (VObj [("sub", VStr "u1")]))
           (Some "Bearer abc") None (VStr "u1") VUndefined VUndefined eq_refl).
Defined.
